(** * pdf-image-extractor/extract.py: extraction, upload and command line

    A shallow embedding of [extract.py].  Python integers are [Z], strings
    are [string], the set of remote names is a [gset string].  The calls
    into PyMuPDF, gwsa, the file system and the standard streams are
    recorded, in program order, in a trace of events; [sys.exit] and an
    uncaught exception end the computation.

    What lies outside the script is a parameter, the [World]: whether the
    two libraries can be imported, which paths exist, what document
    [fitz.open] yields, what the output directory and the remote folder
    hold.  Of the library calls, [os.makedirs] and [fitz.open] may raise;
    the others are taken to return.  Paths are POSIX paths, and the command line is taken as argparse
    classifies its words. *)

From Stdlib Require Import ZArith Lia Ascii.
From stdpp Require Import base list strings gmap pretty sorting.

Local Open Scope Z_scope.

(** ** Python built-ins used by the script *)

Module Py.

(** Truth value of an [int]: [if limit and ...]. *)
Definition truthy_int (i : Z) : bool := negb (i =? 0).

(** Truth value of a [str]. *)
Definition truthy_str (s : string) : bool :=
  match s with EmptyString => false | String _ _ => true end.

(** Truth value of [args.drive_folder_id], which is [None] or a [str]. *)
Definition truthy_opt_str (o : option string) : bool :=
  match o with None => false | Some s => truthy_str s end.

(** [str(i)], as used by the f-strings. *)
Definition str (i : Z) : string := pretty i.

(** [len(l)]. *)
Definition len {A} (l : list A) : Z := Z.of_nat (length l).

Definition sep : Ascii.ascii := "/"%char.

Fixpoint has_sep (s : string) : bool :=
  match s with
  | EmptyString => false
  | String c r => if Ascii.eqb c sep then true else has_sep r
  end.

(** [os.path.basename] (posixpath): what follows the last separator. *)
Fixpoint basename (p : string) : string :=
  match p with
  | EmptyString => EmptyString
  | String c r =>
      if has_sep r then basename r
      else if Ascii.eqb c sep then r else p
  end.

Definition startswith_sep (s : string) : bool :=
  match s with String c _ => Ascii.eqb c sep | EmptyString => false end.

Fixpoint endswith_sep (s : string) : bool :=
  match s with
  | EmptyString => false
  | String c EmptyString => Ascii.eqb c sep
  | String _ r => endswith_sep r
  end.

(** [os.path.join(a, b)] (posixpath, two arguments). *)
Definition join (a b : string) : string :=
  if startswith_sep b then b
  else if negb (truthy_str a) || endswith_sep a then a +:+ b
  else a +:+ String sep b.

(** [sorted] on strings. *)
Definition sorted (l : list string) : list string := merge_sort String.le l.

End Py.

(** ** Data model *)

(** A decoded raster image: [pix.width], [pix.height], [pix.n], [pix.alpha]. *)
Record Pixmap := {
  pix_width : Z;
  pix_height : Z;
  pix_n : Z;
  pix_alpha : Z
}.

(** An entry of [page.get_images()]; the script reads [img[0]] only. *)
Record ImageEntry := { img_xref : Z }.

(** An opened document: its pages, each with the list [get_images()]
    returns, and the pixel data [fitz.Pixmap(doc, xref)] resolves. *)
Record Document := {
  doc_pages : list (list ImageEntry);
  doc_pixmap : Z → Pixmap
}.

(** An item of the folder listing; the script reads [item["name"]]. *)
Record DriveItem := { item_name : string }.

(** The dict returned by [list_folder]; the key ["items"] may be absent. *)
Record FolderListing := { listing_items : option (list DriveItem) }.

(** Everything the script reads from outside.  [makedirs_error dir] is the
    exception [os.makedirs(dir, exist_ok=True)] raises for reasons of the
    file system (a file in the way, missing permission), if any. *)
Record World := {
  fitz_installed : bool;
  gwsa_installed : bool;
  path_exists : string → bool;
  makedirs_error : string → option string;
  fitz_open : string → option Document;
  glob_png : string → list string;
  list_folder : string → FolderListing
}.

(** ** Output lines, one constructor per [print] of the script

    [render] gives the text of each.  What argparse itself prints (the help
    and the usage errors) is kept apart, see [usage_error]. *)

Inductive message :=
| MsgNoPyMuPDF
| MsgExtracted (img_path : string) (w h : Z)
| MsgNoGwsa
| MsgSkipping (filename : string)
| MsgUploadedSoFar (uploaded : Z)
| MsgFolderRequired
| MsgNoOutputDir (dir : string)
| MsgFound (count : Z) (dir : string)
| MsgPdfNotFound (pdf : string)
| MsgExtractedTotal (count : Z) (dir : string)
| MsgUploading (folder_id : string)
| MsgUploadedNew (uploaded : Z).

Definition nl : string := String (Ascii.ascii_of_nat 10) EmptyString.

Definition render (m : message) : string :=
  match m with
  | MsgNoPyMuPDF => "Error: PyMuPDF not installed. Run: pip install pymupdf"
  | MsgExtracted p w h =>
      "Extracted: " +:+ p +:+ " (" +:+ Py.str w +:+ "x" +:+ Py.str h +:+ ")"
  | MsgNoGwsa => "Error: gwsa not installed. Run: pip install gwsa"
  | MsgSkipping f => "Skipping (exists): " +:+ f
  | MsgUploadedSoFar u => "Uploaded " +:+ Py.str u +:+ "..."
  | MsgFolderRequired => "Error: --drive-folder-id required with --upload-only"
  | MsgNoOutputDir d => "Error: Output directory does not exist: " +:+ d
  | MsgFound c d => "Found " +:+ Py.str c +:+ " images in " +:+ d
  | MsgPdfNotFound p => "Error: PDF file not found: " +:+ p
  | MsgExtractedTotal c d =>
      nl +:+ "Extracted " +:+ Py.str c +:+ " images to " +:+ d
  | MsgUploading f => nl +:+ "Uploading to Google Drive folder: " +:+ f
  | MsgUploadedNew u => "Uploaded " +:+ Py.str u +:+ " new files"
  end.

(** ** Effects *)

(** Why argparse rejects a command line. *)
Inductive usage_error :=
| RequiredPdf                       (* the following arguments are required: pdf *)
| Unrecognized (extras : list string)         (* unrecognized arguments: ... *)
| BadArgument (option_strings : string).
                  (* argument ...: expected one argument / invalid int value *)

Inductive event :=
| Makedirs (dir : string)
| FitzOpen (pdf_path : string)
| LoadPage (page_num : nat)
| NewPixmap (xref : Z)
| ToRGB (xref : Z)
| Save (img_path : string) (pix : Pixmap)
| DocClose
| ListFolder (folder_id : string)
| UploadFile (path folder_id : string)
| Stdout (m : message)
| Stderr (m : message)
| ArgparseHelp
| ArgparseError (reason : usage_error).

Inductive outcome (A : Type) :=
| Return (a : A)
| Exit (code : Z)
| Raise (exn : string).
Arguments Return {A} a.
Arguments Exit {A} code.
Arguments Raise {A} exn.

(** A computation: the events it performed and how it ended. *)
Definition M (A : Type) : Type := list event * outcome A.

Global Instance M_ret : MRet M := λ A a, ([], Return a).

Global Instance M_bind : MBind M := λ A B k m,
  match m with
  | (t, Return a) => let '(t', o) := k a in (t ++ t', o)
  | (t, Exit c) => (t, Exit c)
  | (t, Raise e) => (t, Raise e)
  end.

Definition emit (e : event) : M unit := ([e], Return tt).
Definition sys_exit {A} (code : Z) : M A := ([], Exit code).
Definition raise {A} (exn : string) : M A := ([], Raise exn).

Definition trace {A} (m : M A) : list event := fst m.
Definition result {A} (m : M A) : outcome A := snd m.

(** The status the process ends with: 0 on a normal return, the argument of
    [sys.exit], 1 after an uncaught exception. *)
Definition exit_status {A} (m : M A) : Z :=
  match result m with
  | Return _ => 0
  | Exit c => c
  | Raise _ => 1
  end.

(** ** extract_images *)

(** [limit and len(extracted) >= limit] *)
Definition limit_reached (limit count : Z) : bool :=
  Py.truthy_int limit && (limit <=? count).

(** The name [f"page{page_num + 1}_img{img_idx + 1}.png"]. *)
Definition image_name (page_num img_idx : nat) : string :=
  "page" +:+ Py.str (Z.of_nat page_num + 1) +:+
  "_img" +:+ Py.str (Z.of_nat img_idx + 1) +:+ ".png".

Definition image_path (output_dir : string) (page_num img_idx : nat) : string :=
  Py.join output_dir (image_name page_num img_idx).

(** [fitz.Pixmap(doc, xref)] *)
Definition new_pixmap (doc : Document) (xref : Z) : M Pixmap :=
  emit (NewPixmap xref);; mret (doc_pixmap doc xref).

(** [fitz.Pixmap(fitz.csRGB, pix)]: same dimensions and alpha, three colour
    channels. *)
Definition to_rgb (xref : Z) (pix : Pixmap) : M Pixmap :=
  emit (ToRGB xref);;
  mret {| pix_width := pix_width pix; pix_height := pix_height pix;
          pix_n := 3 + pix_alpha pix; pix_alpha := pix_alpha pix |}.

(** The inner loop, [for img_idx, img in enumerate(images)], from index
    [img_idx] on; [break] returns, [continue] goes to the next image. *)
Fixpoint image_loop (doc : Document) (output_dir : string) (min_size limit : Z)
    (page_num img_idx : nat) (images : list ImageEntry)
    (extracted : list string) : M (list string) :=
  match images with
  | [] => mret extracted
  | img :: images' =>
      if limit_reached limit (Py.len extracted) then mret extracted
      else
        let xref := img_xref img in
        pix ← new_pixmap doc xref;
        if (pix_width pix <? min_size) || (pix_height pix <? min_size) then
          image_loop doc output_dir min_size limit page_num (S img_idx)
            images' extracted
        else
          pix ← (if 3 <? pix_n pix - pix_alpha pix then to_rgb xref pix
                 else mret pix);
          let img_path := image_path output_dir page_num img_idx in
          emit (Save img_path pix);;
          let extracted := extracted ++ [img_path] in
          emit (Stdout (MsgExtracted img_path (pix_width pix) (pix_height pix)));;
          image_loop doc output_dir min_size limit page_num (S img_idx)
            images' extracted
  end.

(** [page = doc[page_num]; images = page.get_images()] *)
Definition load_page (doc : Document) (page_num : nat) : M (list ImageEntry) :=
  emit (LoadPage page_num);;
  match doc_pages doc !! page_num with
  | Some images => mret images
  | None => raise "IndexError"
  end.

(** The outer loop, [for page_num in range(len(doc))]. *)
Fixpoint page_loop (doc : Document) (output_dir : string) (min_size limit : Z)
    (page_nums : list nat) (extracted : list string) : M (list string) :=
  match page_nums with
  | [] => mret extracted
  | page_num :: page_nums' =>
      if limit_reached limit (Py.len extracted) then mret extracted
      else
        images ← load_page doc page_num;
        extracted ← image_loop doc output_dir min_size limit page_num 0
                      images extracted;
        page_loop doc output_dir min_size limit page_nums' extracted
  end.

(** The exception [os.makedirs(output_dir, exist_ok=True)] raises, if any:
    the empty path cannot be created in any world, a path that is a PDF
    file is a file in the way, and otherwise the file system decides. *)
Definition makedirs_raises (w : World) (output_dir : string) : option string :=
  match output_dir with
  | EmptyString => Some "FileNotFoundError"
  | String _ _ =>
      match fitz_open w output_dir with
      | Some _ => Some "FileExistsError"
      | None => makedirs_error w output_dir
      end
  end.

(** [os.makedirs(output_dir, exist_ok=True)] *)
Definition os_makedirs (w : World) (output_dir : string) : M unit :=
  emit (Makedirs output_dir);;
  match makedirs_raises w output_dir with
  | Some exn => raise exn
  | None => mret tt
  end.

Definition extract_images (w : World) (pdf_path output_dir : string)
    (min_size limit : Z) : M (list string) :=
  (if fitz_installed w then mret tt
   else emit (Stderr MsgNoPyMuPDF);; sys_exit 1);;
  os_makedirs w output_dir;;
  emit (FitzOpen pdf_path);;
  doc ← (match fitz_open w pdf_path with
         | Some doc => mret doc
         | None => raise "fitz.FileDataError"
         end);
  let extracted := [] in
  extracted ← page_loop doc output_dir min_size limit
                (seq 0 (length (doc_pages doc))) extracted;
  emit DocClose;;
  mret extracted.

(** ** upload_to_drive *)

(** [{item["name"] for item in existing.get("items", [])}] *)
Definition existing_names_of (existing : FolderListing) : gset string :=
  list_to_set (item_name <$> default [] (listing_items existing)).

(** The loop [for path in image_paths], with the running counter. *)
Fixpoint upload_loop (folder_id : string) (existing_names : gset string)
    (limit : Z) (image_paths : list string) (uploaded : Z) : M Z :=
  match image_paths with
  | [] => mret uploaded
  | path :: image_paths' =>
      if limit_reached limit uploaded then mret uploaded
      else
        let filename := Py.basename path in
        if bool_decide (filename ∈ existing_names) then
          emit (Stdout (MsgSkipping filename));;
          upload_loop folder_id existing_names limit image_paths' uploaded
        else
          emit (UploadFile path folder_id);;
          let uploaded := uploaded + 1 in
          (if uploaded `mod` 20 =? 0 then emit (Stdout (MsgUploadedSoFar uploaded))
           else mret tt);;
          upload_loop folder_id existing_names limit image_paths' uploaded
  end.

Definition upload_to_drive (w : World) (image_paths : list string)
    (folder_id : string) (limit : Z) : M Z :=
  (if gwsa_installed w then mret tt
   else emit (Stderr MsgNoGwsa);; sys_exit 1);;
  emit (ListFolder folder_id);;
  let existing := list_folder w folder_id in
  let existing_names := existing_names_of existing in
  let uploaded := 0 in
  upload_loop folder_id existing_names limit image_paths uploaded.

(** ** The command line *)

(** What [parse_args] returns. *)
Record Namespace := {
  args_pdf : string;
  args_output_dir : string;
  args_min_size : Z;
  args_limit : Z;
  args_drive_folder_id : option string;
  args_upload_only : bool
}.

(** The command line as argparse classifies it: each option with its
    argument, [None] when the argument is missing or, for [type=int], is
    not an integer literal; every other word is a positional or an
    unknown option. *)
Inductive cli_item :=
| OptHelp
| OptOutputDir (v : option string)
| OptMinSize (v : option Z)
| OptLimit (v : option Z)
| OptDriveFolderId (v : option string)
| OptUploadOnly
| Positional (s : string)
| UnknownOpt (s : string).

(** The parser state: the namespace filled so far ([pdf] still unset) and
    the words no argument of the parser took. *)
Record parse_state := {
  ps_pdf : option string;
  ps_output_dir : string;
  ps_min_size : Z;
  ps_limit : Z;
  ps_drive_folder_id : option string;
  ps_upload_only : bool;
  ps_extras : list string
}.

(** The defaults given to [add_argument]. *)
Definition parser_defaults : parse_state :=
  {| ps_pdf := None; ps_output_dir := "./extracted_images";
     ps_min_size := 100; ps_limit := 0; ps_drive_folder_id := None;
     ps_upload_only := false; ps_extras := [] |}.

Definition parser_error {A} (reason : usage_error) : M A :=
  emit (ArgparseError reason);; sys_exit 2.

Definition set_pdf (s : string) (st : parse_state) : parse_state :=
  {| ps_pdf := Some s; ps_output_dir := ps_output_dir st;
     ps_min_size := ps_min_size st; ps_limit := ps_limit st;
     ps_drive_folder_id := ps_drive_folder_id st;
     ps_upload_only := ps_upload_only st; ps_extras := ps_extras st |}.

Definition set_output_dir (v : string) (st : parse_state) : parse_state :=
  {| ps_pdf := ps_pdf st; ps_output_dir := v;
     ps_min_size := ps_min_size st; ps_limit := ps_limit st;
     ps_drive_folder_id := ps_drive_folder_id st;
     ps_upload_only := ps_upload_only st; ps_extras := ps_extras st |}.

Definition set_min_size (v : Z) (st : parse_state) : parse_state :=
  {| ps_pdf := ps_pdf st; ps_output_dir := ps_output_dir st;
     ps_min_size := v; ps_limit := ps_limit st;
     ps_drive_folder_id := ps_drive_folder_id st;
     ps_upload_only := ps_upload_only st; ps_extras := ps_extras st |}.

Definition set_limit (v : Z) (st : parse_state) : parse_state :=
  {| ps_pdf := ps_pdf st; ps_output_dir := ps_output_dir st;
     ps_min_size := ps_min_size st; ps_limit := v;
     ps_drive_folder_id := ps_drive_folder_id st;
     ps_upload_only := ps_upload_only st; ps_extras := ps_extras st |}.

Definition set_drive_folder_id (v : string) (st : parse_state) : parse_state :=
  {| ps_pdf := ps_pdf st; ps_output_dir := ps_output_dir st;
     ps_min_size := ps_min_size st; ps_limit := ps_limit st;
     ps_drive_folder_id := Some v;
     ps_upload_only := ps_upload_only st; ps_extras := ps_extras st |}.

Definition set_upload_only (st : parse_state) : parse_state :=
  {| ps_pdf := ps_pdf st; ps_output_dir := ps_output_dir st;
     ps_min_size := ps_min_size st; ps_limit := ps_limit st;
     ps_drive_folder_id := ps_drive_folder_id st;
     ps_upload_only := true; ps_extras := ps_extras st |}.

Definition add_extra (s : string) (st : parse_state) : parse_state :=
  {| ps_pdf := ps_pdf st; ps_output_dir := ps_output_dir st;
     ps_min_size := ps_min_size st; ps_limit := ps_limit st;
     ps_drive_folder_id := ps_drive_folder_id st;
     ps_upload_only := ps_upload_only st; ps_extras := ps_extras st ++ [s] |}.

(** One word (or option with its argument) of the command line.  [-h]
    prints the help and exits with 0 at once; a bad option argument is an
    error at once; the first positional is [pdf], and the other words that
    nobody takes are collected. *)
Definition consume (st : parse_state) (it : cli_item) : M parse_state :=
  match it with
  | OptHelp => emit ArgparseHelp;; sys_exit 0
  | OptOutputDir (Some v) => mret (set_output_dir v st)
  | OptOutputDir None => parser_error (BadArgument "-o/--output-dir")
  | OptMinSize (Some v) => mret (set_min_size v st)
  | OptMinSize None => parser_error (BadArgument "-m/--min-size")
  | OptLimit (Some v) => mret (set_limit v st)
  | OptLimit None => parser_error (BadArgument "-l/--limit")
  | OptDriveFolderId (Some v) => mret (set_drive_folder_id v st)
  | OptDriveFolderId None => parser_error (BadArgument "--drive-folder-id")
  | OptUploadOnly => mret (set_upload_only st)
  | Positional s =>
      match ps_pdf st with
      | None => mret (set_pdf s st)
      | Some _ => mret (add_extra s st)
      end
  | UnknownOpt s => mret (add_extra s st)
  end.

Fixpoint consume_all (st : parse_state) (argv : list cli_item) : M parse_state :=
  match argv with
  | [] => mret st
  | it :: argv' => st ← consume st it; consume_all st argv'
  end.

(** [parser.parse_args()]: the positional [pdf] has no [nargs], so it is
    required whatever the options are; a missing [pdf] is reported before
    the unrecognized words. *)
Definition parse_args (argv : list cli_item) : M Namespace :=
  st ← consume_all parser_defaults argv;
  match ps_pdf st with
  | None => parser_error RequiredPdf
  | Some pdf =>
      match ps_extras st with
      | _ :: _ => parser_error (Unrecognized (ps_extras st))
      | [] =>
          mret {| args_pdf := pdf; args_output_dir := ps_output_dir st;
                  args_min_size := ps_min_size st; args_limit := ps_limit st;
                  args_drive_folder_id := ps_drive_folder_id st;
                  args_upload_only := ps_upload_only st |}
      end
  end.

(** ** main *)

(** The body of [main] after [parse_args]. *)
Definition run (w : World) (args : Namespace) : M unit :=
  image_paths ←
    (if args_upload_only args then
       (if negb (Py.truthy_opt_str (args_drive_folder_id args)) then
          emit (Stderr MsgFolderRequired);; sys_exit 1
        else mret tt);;
       (if negb (path_exists w (args_output_dir args)) then
          emit (Stderr (MsgNoOutputDir (args_output_dir args)));; sys_exit 1
        else mret tt);;
       let image_paths := Py.sorted (glob_png w (args_output_dir args)) in
       emit (Stdout (MsgFound (Py.len image_paths) (args_output_dir args)));;
       mret image_paths
     else
       (if negb (path_exists w (args_pdf args)) then
          emit (Stderr (MsgPdfNotFound (args_pdf args)));; sys_exit 1
        else mret tt);;
       image_paths ← extract_images w (args_pdf args) (args_output_dir args)
                       (args_min_size args) (args_limit args);
       emit (Stdout (MsgExtractedTotal (Py.len image_paths)
                       (args_output_dir args)));;
       mret image_paths);
  match args_drive_folder_id args with
  | Some folder_id =>
      if Py.truthy_str folder_id then
        emit (Stdout (MsgUploading folder_id));;
        let upload_limit := if args_upload_only args then args_limit args else 0 in
        uploaded ← upload_to_drive w image_paths folder_id upload_limit;
        emit (Stdout (MsgUploadedNew uploaded))
      else mret tt
  | None => mret tt
  end.

Definition main (w : World) (argv : list cli_item) : M unit :=
  args ← parse_args argv;
  run w args.

(** ** Reading a trace *)

(** The files written by [pix.save], in order. *)
Definition saved (t : list event) : list (string * Pixmap) :=
  omap (λ e, match e with Save p pix => Some (p, pix) | _ => None end) t.

Definition saved_paths (t : list event) : list string := (saved t).*1.

(** The paths handed to [upload_file], in order. *)
Definition uploads (t : list event) : list string :=
  omap (λ e, match e with UploadFile p _ => Some p | _ => None end) t.

(** The calls to [list_folder]. *)
Definition listings (t : list event) : list string :=
  omap (λ e, match e with ListFolder f => Some f | _ => None end) t.

(** The per-path decisions of the upload loop, in order. *)
Definition is_decision (e : event) : bool :=
  match e with
  | UploadFile _ _ | Stdout (MsgSkipping _) => true
  | _ => false
  end.

Definition decisions (t : list event) : list event := filter is_decision t.

(** The steps of the page and image traversal. *)
Definition is_traversal (e : event) : bool :=
  match e with
  | LoadPage _ | NewPixmap _ | ToRGB _ | Save _ _ => true
  | _ => false
  end.

(** What is printed on standard error. *)
Definition is_error_output (e : event) : bool :=
  match e with
  | Stderr _ | ArgparseError _ => true
  | _ => false
  end.

(** Touching the disk or the remote folder. *)
Definition is_write (e : event) : bool :=
  match e with
  | Makedirs _ | Save _ _ | UploadFile _ _ => true
  | _ => false
  end.

(** ** Reference functions the loops are compared with *)

(** The pixmap that is written for a source pixmap, and the conversion
    call made for it, if any. *)
Definition written_pixmap (pix : Pixmap) : Pixmap :=
  if 3 <? pix_n pix - pix_alpha pix
  then {| pix_width := pix_width pix; pix_height := pix_height pix;
          pix_n := 3 + pix_alpha pix; pix_alpha := pix_alpha pix |}
  else pix.

Definition conversion (xref : Z) (pix : Pixmap) : list event :=
  if 3 <? pix_n pix - pix_alpha pix then [ToRGB xref] else [].


(** The size test of the extractor, on the pixmap of an image. *)
Definition qualifies (min_size : Z) (pix : Pixmap) : bool :=
  negb ((pix_width pix <? min_size) || (pix_height pix <? min_size)).

(** The images of a page that pass the size test, each with its index
    (counted from [img_idx]). *)
Fixpoint qualifying_from (doc : Document) (min_size : Z) (img_idx : nat)
    (images : list ImageEntry) : list (nat * ImageEntry) :=
  match images with
  | [] => []
  | img :: images' =>
      if qualifies min_size (doc_pixmap doc (img_xref img))
      then (img_idx, img) :: qualifying_from doc min_size (S img_idx) images'
      else qualifying_from doc min_size (S img_idx) images'
  end.

(** The images of the document that pass the size test, in document order
    from page [page_num] on, each with its page number and index (0-based). *)
Fixpoint qualifying_pages (doc : Document) (min_size : Z) (page_num : nat)
    (pages : list (list ImageEntry)) : list (nat * (nat * ImageEntry)) :=
  match pages with
  | [] => []
  | images :: pages' =>
      (pair page_num <$> qualifying_from doc min_size 0 images)
      ++ qualifying_pages doc min_size (S page_num) pages'
  end.

Definition qualifying (doc : Document) (min_size : Z)
  : list (nat * (nat * ImageEntry)) :=
  qualifying_pages doc min_size 0 (doc_pages doc).

(** The file written for an image at a position. *)
Definition file_of (doc : Document) (output_dir : string)
    (q : nat * (nat * ImageEntry)) : string * Pixmap :=
  (image_path output_dir q.1 q.2.1,
   written_pixmap (doc_pixmap doc (img_xref q.2.2))).

(** What a cap leaves of a list when [count] items are already taken:
    everything for 0, otherwise at most [limit - count] items (none when
    that is not positive). *)
Definition room {A} (limit count : Z) (l : list A) : list A :=
  if limit =? 0 then l else take (Z.to_nat (limit - count)) l.

Definition cap {A} (limit : Z) (l : list A) : list A := room limit 0 l.

(** The decision the upload loop takes for one path. *)
Definition decision (folder_id : string) (names : gset string)
    (path : string) : event :=
  if bool_decide (Py.basename path ∈ names)
  then Stdout (MsgSkipping (Py.basename path))
  else UploadFile path folder_id.

(** Decimal digits, for the uniqueness of the file names. *)
Definition is_digit (c : ascii) : bool :=
  let n := N_of_ascii c in ((48 <=? n) && (n <=? 57))%N.

Fixpoint all_digits (s : string) : bool :=
  match s with
  | EmptyString => true
  | String c r => is_digit c && all_digits r
  end.

(** [guarded limit count t]: along [t], started with [count] files saved,
    no traversal step happens while the limit test
    [limit and len(extracted) >= limit] holds. *)
Fixpoint guarded (limit count : Z) (t : list event) : Prop :=
  match t with
  | [] => True
  | e :: t' =>
      (is_traversal e = true → limit_reached limit count = false) ∧
      guarded limit (count + Py.len (saved [e])) t'
  end.


(** A non-empty string that does not start with a digit. *)
Definition stops_digits (r : string) : Prop :=
  match r with
  | EmptyString => False
  | String c _ => is_digit c = false
  end.

(** The progress line printed after the upload that brings the counter to
    [uploaded], if any. *)
Definition milestone (uploaded : Z) : list event :=
  if uploaded `mod` 20 =? 0 then [Stdout (MsgUploadedSoFar uploaded)] else [].

(** ** Sample inputs *)

Module Sample.

Definition rgb (width height : Z) : Pixmap :=
  {| pix_width := width; pix_height := height; pix_n := 3; pix_alpha := 0 |}.

Definition cmyk (width height : Z) : Pixmap :=
  {| pix_width := width; pix_height := height; pix_n := 4; pix_alpha := 0 |}.

Definition entry (xref : Z) : ImageEntry := {| img_xref := xref |}.

(** Three pages with 2, 0 and 5 images; the images 12 and 33 are too small
    for a minimum of 100, the image 31 is CMYK. *)
Definition mixed : Document :=
  {| doc_pages := [[entry 11; entry 12]; [];
                   [entry 31; entry 32; entry 33; entry 34; entry 35]];
     doc_pixmap := λ xref,
       if xref =? 12 then rgb 99 400
       else if xref =? 33 then rgb 400 20
       else if xref =? 31 then cmyk 640 480
       else rgb 640 480 |}.

(** Three pages with 2, 0 and 5 images, all of them 640x480. *)
Definition report : Document :=
  {| doc_pages := [[entry 11; entry 12]; [];
                   [entry 31; entry 32; entry 33; entry 34; entry 35]];
     doc_pixmap := λ _, rgb 640 480 |}.

Definition named (names : list string) : FolderListing :=
  {| listing_items := Some ((λ s, {| item_name := s |}) <$> names) |}.

(** Both libraries installed, every path exists, every directory can be
    created, [a.pdf] is [doc] and nothing else is a PDF, the output
    directory holds [pngs] and the remote folder [remote]. *)
Definition world (doc : Document) (pngs remote : list string) : World :=
  {| fitz_installed := true; gwsa_installed := true;
     path_exists := λ _, true;
     makedirs_error := λ _, None;
     fitz_open := λ p, if String.eqb p "a.pdf" then Some doc else None;
     glob_png := λ _, pngs;
     list_folder := λ _, named remote |}.

End Sample.

(** ** More readings of a trace *)

(** The lines printed on standard output, in order. *)
Definition stdout_lines (t : list event) : list message :=
  omap (λ e, match e with Stdout m => Some m | _ => None end) t.

(** The cross-references handed to [fitz.Pixmap(doc, xref)], in order. *)
Definition resolved (t : list event) : list Z :=
  omap (λ e, match e with NewPixmap x => Some x | _ => None end) t.

(** The cross-references of the pixmaps converted to RGB, in order. *)
Definition converted (t : list event) : list Z :=
  omap (λ e, match e with ToRGB x => Some x | _ => None end) t.

(** The page numbers read with [doc[page_num]], in order. *)
Definition loaded_pages (t : list event) : list nat :=
  omap (λ e, match e with LoadPage n => Some n | _ => None end) t.

(** The counters shown by the progress lines of the upload, in order. *)
Definition progress (t : list event) : list Z :=
  omap (λ e, match e with
             | Stdout (MsgUploadedSoFar u) => Some u
             | _ => None
             end) t.

(** The calls that need PyMuPDF or touch the local disk. *)
Definition is_local (e : event) : bool :=
  match e with
  | Makedirs _ | FitzOpen _ | LoadPage _ | NewPixmap _ | ToRGB _ | Save _ _
  | DocClose => true
  | _ => false
  end.

(** The calls that need gwsa. *)
Definition is_remote (e : event) : bool :=
  match e with
  | ListFolder _ | UploadFile _ _ => true
  | _ => false
  end.

(** What the image loop does for an image once it passed the size test:
    convert if needed, save, print. *)
Definition is_output (e : event) : bool :=
  match e with
  | ToRGB _ | Save _ _ | Stdout (MsgExtracted _ _ _) => true
  | _ => false
  end.

Definition output_of (doc : Document) (output_dir : string)
    (q : nat * (nat * ImageEntry)) : list event :=
  let pix := doc_pixmap doc (img_xref q.2.2) in
  let img_path := image_path output_dir q.1 q.2.1 in
  conversion (img_xref q.2.2) pix ++
  [Save img_path (written_pixmap pix);
   Stdout (MsgExtracted img_path (pix_width pix) (pix_height pix))].

(** [pix.n - pix.alpha], the number of colour channels. *)
Definition colour_channels (pix : Pixmap) : Z := pix_n pix - pix_alpha pix.

(** All the image entries of a document, page after page. *)
Definition all_images (doc : Document) : list ImageEntry :=
  concat (doc_pages doc).

(** The line [f"Extracted: {img_path} ({pix.width}x{pix.height})"] for a
    file and the pixmap written to it. *)
Definition extracted_line (f : string * Pixmap) : message :=
  MsgExtracted f.1 (pix_width f.2) (pix_height f.2).

(** * Proofs *)

(** ** Projections of a trace *)

Lemma saved_app t1 t2 : saved (t1 ++ t2) = saved t1 ++ saved t2.
Proof. apply omap_app. Qed.

Lemma saved_paths_app t1 t2 :
  saved_paths (t1 ++ t2) = saved_paths t1 ++ saved_paths t2.
Proof. unfold saved_paths. by rewrite saved_app, fmap_app. Qed.

Lemma uploads_app t1 t2 : uploads (t1 ++ t2) = uploads t1 ++ uploads t2.
Proof. apply omap_app. Qed.

Lemma listings_app t1 t2 : listings (t1 ++ t2) = listings t1 ++ listings t2.
Proof. apply omap_app. Qed.

Lemma decisions_app t1 t2 : decisions (t1 ++ t2) = decisions t1 ++ decisions t2.
Proof. apply filter_app. Qed.

Lemma len_app {A} (l1 l2 : list A) : Py.len (l1 ++ l2) = Py.len l1 + Py.len l2.
Proof. unfold Py.len. rewrite length_app. lia. Qed.

Lemma len_nonneg {A} (l : list A) : 0 ≤ Py.len l.
Proof. unfold Py.len. lia. Qed.

(** ** The limit test and [room] *)

Lemma limit_reached_true limit count :
  limit_reached limit count = true ↔ limit ≠ 0 ∧ limit ≤ count.
Proof.
  unfold limit_reached, Py.truthy_int.
  rewrite andb_true_iff, negb_true_iff, Z.eqb_neq, Z.leb_le. tauto.
Qed.

Lemma limit_reached_false limit count :
  limit_reached limit count = false ↔ limit = 0 ∨ count < limit.
Proof.
  destruct (limit_reached limit count) eqn:E.
  - apply limit_reached_true in E. split; [done|lia].
  - split; [|done]. intros _.
    destruct (decide (limit = 0)); [by left|right].
    destruct (decide (count < limit)); [done|].
    assert (limit_reached limit count = true) by (apply limit_reached_true; lia).
    congruence.
Qed.

Lemma room_reached {A} limit count (l : list A) :
  limit_reached limit count = true → room limit count l = [].
Proof.
  intros [Hne Hle]%limit_reached_true. unfold room.
  destruct (Z.eqb_spec limit 0); [done|].
  replace (Z.to_nat (limit - count)) with 0%nat by lia. done.
Qed.

Lemma room_cons {A} limit count (x : A) (l : list A) :
  limit_reached limit count = false →
  room limit count (x :: l) = x :: room limit (count + 1) l.
Proof.
  intros H%limit_reached_false. unfold room.
  destruct (Z.eqb_spec limit 0); [done|].
  destruct H as [?|H]; [done|].
  replace (Z.to_nat (limit - count)) with (S (Z.to_nat (limit - (count + 1)))) by lia.
  done.
Qed.

Lemma room_length {A} limit count (l : list A) :
  0 < limit → 0 ≤ count → count + Py.len (room limit count l) ≤ Z.max limit count.
Proof.
  intros. unfold room, Py.len.
  destruct (Z.eqb_spec limit 0); [lia|].
  rewrite length_take. lia.
Qed.

Lemma room_app {A} limit count (l1 l2 : list A) :
  room limit count (l1 ++ l2) =
  room limit count l1 ++ room limit (count + Py.len (room limit count l1)) l2.
Proof.
  unfold room, Py.len. destruct (Z.eqb_spec limit 0); [done|].
  rewrite take_app, length_take. f_equal. f_equal. lia.
Qed.

(** ** One iteration of the image loop *)

Section image_loop.
Context (doc : Document) (output_dir : string) (min_size limit : Z).
Context (page_num : nat).

Local Abbreviation loop := (image_loop doc output_dir min_size limit page_num).

Lemma image_loop_break img_idx img images extracted :
  limit_reached limit (Py.len extracted) = true →
  loop img_idx (img :: images) extracted = ([], Return extracted).
Proof. intros H. simpl. by rewrite H. Qed.

Lemma image_loop_continue img_idx img images extracted :
  limit_reached limit (Py.len extracted) = false →
  qualifies min_size (doc_pixmap doc (img_xref img)) = false →
  loop img_idx (img :: images) extracted =
  (NewPixmap (img_xref img) :: trace (loop (S img_idx) images extracted),
   result (loop (S img_idx) images extracted)).
Proof.
  intros H Hq. simpl. rewrite H.
  unfold qualifies in Hq. apply negb_false_iff in Hq.
  unfold mbind at 1, M_bind at 1, new_pixmap; simpl. rewrite Hq.
  by destruct (image_loop _ _ _ _ _ _ _ _) as [t o].
Qed.

Lemma image_loop_save img_idx img images extracted :
  limit_reached limit (Py.len extracted) = false →
  qualifies min_size (doc_pixmap doc (img_xref img)) = true →
  let pix := doc_pixmap doc (img_xref img) in
  let img_path := image_path output_dir page_num img_idx in
  let rest := loop (S img_idx) images (extracted ++ [img_path]) in
  loop img_idx (img :: images) extracted =
  (NewPixmap (img_xref img) :: conversion (img_xref img) pix ++
     Save img_path (written_pixmap pix) ::
     Stdout (MsgExtracted img_path (pix_width pix) (pix_height pix)) ::
     trace rest,
   result rest).
Proof.
  intros H Hq pix img_path rest. simpl. rewrite H.
  unfold qualifies in Hq. apply negb_true_iff in Hq.
  unfold mbind at 1, M_bind at 1, new_pixmap; simpl. rewrite Hq.
  fold pix img_path. unfold conversion, written_pixmap. fold pix.
  destruct (3 <? pix_n pix - pix_alpha pix); simpl;
    subst rest; by destruct (image_loop _ _ _ _ _ _ _ _) as [t o].
Qed.
End image_loop.

(** ** The image loop as a whole *)

Section image_loop_spec.
Context (doc : Document) (output_dir : string) (min_size limit : Z).
Context (page_num : nat).

Local Abbreviation loop := (image_loop doc output_dir min_size limit page_num).

Lemma written_pixmap_size pix :
  pix_width (written_pixmap pix) = pix_width pix ∧
  pix_height (written_pixmap pix) = pix_height pix.
Proof. unfold written_pixmap. by destruct (3 <? _). Qed.

Lemma saved_conversion xref pix : saved (conversion xref pix) = [].
Proof. unfold conversion. by destruct (3 <? _). Qed.

(** The loop returns, and returns the old list followed by what it saved. *)
Lemma image_loop_result images : ∀ img_idx extracted,
  result (loop img_idx images extracted) =
  Return (extracted ++ saved_paths (trace (loop img_idx images extracted))).
Proof.
  induction images as [|img images IH]; intros img_idx extracted.
  { simpl. by rewrite app_nil_r. }
  destruct (limit_reached limit (Py.len extracted)) eqn:Hl.
  { rewrite image_loop_break by done. simpl. by rewrite app_nil_r. }
  destruct (qualifies min_size (doc_pixmap doc (img_xref img))) eqn:Hq.
  - rewrite image_loop_save by done. cbn [trace result fst snd].
    rewrite IH.
    rewrite <- (app_nil_l (conversion _ _ ++ _)), app_comm_cons.
    rewrite !saved_paths_app. unfold saved_paths at 2 3.
    rewrite saved_conversion. simpl. by rewrite <- app_assoc.
  - rewrite image_loop_continue by done. cbn [trace result fst snd].
    by rewrite IH.
Qed.

(** What the loop saves: the qualifying images the limit leaves room for. *)
Lemma image_loop_saved images : ∀ img_idx extracted,
  saved (trace (loop img_idx images extracted)) =
  file_of doc output_dir <$>
    room limit (Py.len extracted)
      (pair page_num <$> qualifying_from doc min_size img_idx images).
Proof.
  induction images as [|img images IH]; intros img_idx extracted.
  { simpl. unfold room. destruct (limit =? 0); by rewrite ?take_nil. }
  destruct (limit_reached limit (Py.len extracted)) eqn:Hl.
  { rewrite image_loop_break, room_reached by done. done. }
  simpl qualifying_from.
  destruct (qualifies min_size (doc_pixmap doc (img_xref img))) eqn:Hq.
  - rewrite image_loop_save by done. cbn [trace fst].
    rewrite fmap_cons, room_cons by done.
    rewrite <- (app_nil_l (conversion _ _ ++ _)), app_comm_cons.
    rewrite saved_app, saved_app, saved_conversion. simpl.
    rewrite IH, len_app. done.
  - rewrite image_loop_continue by done. cbn [trace fst]. simpl.
    by rewrite IH.
Qed.

(** Every step of the loop is taken below the limit. *)
Lemma image_loop_guarded images : ∀ img_idx extracted,
  guarded limit (Py.len extracted) (trace (loop img_idx images extracted)).
Proof.
  induction images as [|img images IH]; intros img_idx extracted; [done|].
  destruct (limit_reached limit (Py.len extracted)) eqn:Hl.
  { by rewrite image_loop_break. }
  destruct (qualifies min_size (doc_pixmap doc (img_xref img))) eqn:Hq.
  - rewrite image_loop_save by done. cbn [trace fst].
    split; [done|]. simpl saved. rewrite Z.add_0_r.
    unfold conversion. destruct (3 <? _); simpl.
    + split; [done|]. rewrite Z.add_0_r. split; [done|].
      split; [done|]. rewrite Z.add_0_r.
      specialize (IH (S img_idx) (extracted ++ [image_path output_dir page_num img_idx])).
      by rewrite len_app in IH.
    + split; [done|]. split; [done|]. rewrite Z.add_0_r.
      specialize (IH (S img_idx) (extracted ++ [image_path output_dir page_num img_idx])).
      by rewrite len_app in IH.
  - rewrite image_loop_continue by done. cbn [trace fst].
    split; [done|]. simpl saved. rewrite Z.add_0_r. apply IH.
Qed.
End image_loop_spec.

(** ** [guarded] on compound traces *)

Lemma guarded_app limit count t1 t2 :
  guarded limit count (t1 ++ t2) ↔
  guarded limit count t1 ∧ guarded limit (count + Py.len (saved t1)) t2.
Proof.
  revert count. induction t1 as [|e t1 IH]; intros count.
  { unfold Py.len; simpl. rewrite Z.add_0_r. tauto. }
  cbn [guarded app]. rewrite IH.
  replace (count + Py.len (saved [e]) + Py.len (saved t1))
    with (count + Py.len (saved (e :: t1))); [tauto|].
  change (e :: t1) with ([e] ++ t1). rewrite saved_app, len_app. lia.
Qed.

Lemma guarded_split limit count t t1 e t2 :
  guarded limit count t → t = t1 ++ e :: t2 → is_traversal e = true →
  limit_reached limit (count + Py.len (saved t1)) = false.
Proof.
  intros Hg -> He. apply guarded_app in Hg as [_ [Hg _]]. auto.
Qed.

Lemma guarded_no_traversal limit count t :
  Forall (λ e, is_traversal e = false) t → guarded limit count t.
Proof.
  intros H. revert count. induction H as [|e t He _ IH]; intros count; [done|].
  split; [congruence|apply IH].
Qed.

(** ** The page loop *)

Section page_loop_spec.
Context (doc : Document) (output_dir : string) (min_size limit : Z).

Local Abbreviation ploop := (page_loop doc output_dir min_size limit).
Local Abbreviation iloop := (image_loop doc output_dir min_size limit).

Lemma page_loop_break page_num page_nums extracted :
  limit_reached limit (Py.len extracted) = true →
  ploop (page_num :: page_nums) extracted = ([], Return extracted).
Proof. intros H. simpl. by rewrite H. Qed.

Lemma page_loop_step page_num page_nums extracted images :
  limit_reached limit (Py.len extracted) = false →
  doc_pages doc !! page_num = Some images →
  let inner := iloop page_num 0%nat images extracted in
  let extracted' := extracted ++ saved_paths (trace inner) in
  ploop (page_num :: page_nums) extracted =
  (LoadPage page_num :: trace inner ++ trace (ploop page_nums extracted'),
   result (ploop page_nums extracted')).
Proof.
  intros H Hp. cbv zeta. simpl. rewrite H.
  unfold load_page. rewrite Hp.
  pose proof (image_loop_result doc output_dir min_size limit page_num
                images 0%nat extracted) as Hr.
  unfold mbind, M_bind, emit, mret, M_ret. cbn -[image_loop page_loop].
  destruct (iloop page_num 0%nat images extracted) as [ti oi].
  cbn [trace result fst snd] in *. subst oi.
  by destruct (ploop _ _) as [t o].
Qed.

(** The page loop over the pages [pages], numbered from [k] on: it
    returns, it saves the qualifying images the limit leaves room for, and
    every step is taken below the limit. *)
Lemma page_loop_spec pages : ∀ k extracted,
  (∀ i images, pages !! i = Some images →
               doc_pages doc !! (k + i)%nat = Some images) →
  let r := ploop (seq k (length pages)) extracted in
  result r = Return (extracted ++ saved_paths (trace r)) ∧
  saved (trace r) =
    file_of doc output_dir <$>
      room limit (Py.len extracted) (qualifying_pages doc min_size k pages) ∧
  guarded limit (Py.len extracted) (trace r).
Proof.
  induction pages as [|images pages IH]; intros k extracted Hpages.
  { cbn. rewrite app_nil_r. split; [done|]. split; [|done].
    unfold room. destruct (limit =? 0); by rewrite ?take_nil. }
  cbv zeta. cbn [length seq].
  destruct (limit_reached limit (Py.len extracted)) eqn:Hl.
  { rewrite page_loop_break, room_reached by done. cbn.
    by rewrite app_nil_r. }
  assert (doc_pages doc !! k = Some images) as Hk.
  { rewrite <- (Nat.add_0_r k). by apply Hpages. }
  rewrite (page_loop_step _ _ _ images) by done. cbn [trace result fst snd].
  set (inner := iloop k 0%nat images extracted).
  set (extracted' := extracted ++ saved_paths (trace inner)).
  destruct (IH (S k) extracted') as (IH1 & IH2 & IH3).
  { intros i imgs Hi. replace (S k + i)%nat with (k + S i)%nat by lia.
    by apply Hpages. }
  assert (Py.len extracted' =
          Py.len extracted + Py.len (saved (trace inner))) as Hlen.
  { unfold extracted', saved_paths. rewrite len_app. unfold Py.len.
    by rewrite length_fmap. }
  pose proof (image_loop_saved doc output_dir min_size limit k images
                0%nat extracted) as Hs. fold inner in Hs.
  split; [|split].
  - rewrite IH1. f_equal. unfold extracted'.
    change (LoadPage k :: trace inner ++ ?t) with ([LoadPage k] ++ trace inner ++ t).
    rewrite !saved_paths_app. cbn. by rewrite <- app_assoc.
  - change (LoadPage k :: trace inner ++ ?t) with ([LoadPage k] ++ trace inner ++ t).
    rewrite !saved_app, IH2. cbn [qualifying_pages].
    rewrite room_app, fmap_app, Hlen, Hs.
    cbn. f_equal. f_equal. f_equal. unfold Py.len. by rewrite length_fmap.
  - split; [done|].
    replace (Py.len extracted + Py.len (saved [LoadPage k]))
      with (Py.len extracted) by (unfold Py.len; simpl; lia).
    apply guarded_app. split.
    + apply image_loop_guarded.
    + by rewrite <- Hlen.
Qed.
End page_loop_spec.

(** ** extract_images as a whole *)

Lemma extract_images_no_fitz w pdf_path output_dir min_size limit :
  fitz_installed w = false →
  extract_images w pdf_path output_dir min_size limit =
  ([Stderr MsgNoPyMuPDF], Exit 1).
Proof. intros H. unfold extract_images. by rewrite H. Qed.

Lemma extract_images_no_dir w pdf_path output_dir min_size limit exn :
  fitz_installed w = true → makedirs_raises w output_dir = Some exn →
  extract_images w pdf_path output_dir min_size limit =
  ([Makedirs output_dir], Raise exn).
Proof.
  intros H1 H2. unfold extract_images, os_makedirs. by rewrite H1, H2.
Qed.

Lemma extract_images_unreadable w pdf_path output_dir min_size limit :
  fitz_installed w = true → makedirs_raises w output_dir = None →
  fitz_open w pdf_path = None →
  extract_images w pdf_path output_dir min_size limit =
  ([Makedirs output_dir; FitzOpen pdf_path], Raise "fitz.FileDataError").
Proof.
  intros H1 Hd H2. unfold extract_images, os_makedirs. by rewrite H1, Hd, H2.
Qed.

Lemma extract_images_spec w pdf_path output_dir min_size limit doc :
  fitz_installed w = true → makedirs_raises w output_dir = None →
  fitz_open w pdf_path = Some doc →
  ∃ t,
    extract_images w pdf_path output_dir min_size limit =
      (Makedirs output_dir :: FitzOpen pdf_path :: t ++ [DocClose],
       Return (saved_paths t)) ∧
    saved t = file_of doc output_dir <$> cap limit (qualifying doc min_size) ∧
    guarded limit 0 t.
Proof.
  intros H1 Hd H2.
  destruct (page_loop_spec doc output_dir min_size limit (doc_pages doc) 0 [])
    as (Hr & Hs & Hg); [done|].
  cbv zeta in Hr, Hs, Hg. unfold extract_images, os_makedirs. rewrite H1, Hd, H2.
  unfold mbind, M_bind, emit, mret, M_ret. cbn -[page_loop].
  destruct (page_loop _ _ _ _ _ _) as [t o]. cbn [trace result fst snd] in *.
  subst o. by exists t.
Qed.

(** ** File names are unique per position *)

Lemma append_cons c s r : String c s +:+ r = String c (s +:+ r).
Proof. reflexivity. Qed.

Lemma append_empty_l r : "" +:+ r = r.
Proof. reflexivity. Qed.

Lemma append_assoc' s1 s2 s3 : (s1 +:+ s2) +:+ s3 = s1 +:+ s2 +:+ s3.
Proof.
  induction s1 as [|c s1 IH]; [done|]. by rewrite !append_cons, IH.
Qed.

Lemma all_digits_app s1 s2 :
  all_digits (s1 +:+ s2) = all_digits s1 && all_digits s2.
Proof.
  induction s1 as [|c s1 IH]; [done|].
  rewrite append_cons. simpl. rewrite IH. by rewrite andb_assoc.
Qed.

Lemma pretty_N_char_digit x : is_digit (pretty_N_char x) = true.
Proof. unfold pretty_N_char. by repeat case_match. Qed.

Lemma pretty_N_go_digits x : ∀ s,
  ∃ d, pretty_N_go x s = d +:+ s ∧ all_digits d = true.
Proof.
  induction (N.lt_wf_0 x) as [x _ IH]; intros s.
  destruct (decide (0 < x)%N) as [Hx|Hx].
  - rewrite pretty_N_go_step by done.
    destruct (IH (x `div` 10)%N) with (s := String (pretty_N_char (x `mod` 10)) s)
      as (d & -> & Hd); [by apply N.div_lt|].
    exists (d +:+ String (pretty_N_char (x `mod` 10)) ""). split.
    + by rewrite append_assoc', append_cons, append_empty_l.
    + rewrite all_digits_app, Hd. simpl. by rewrite pretty_N_char_digit.
  - assert (x = 0%N) as -> by lia. rewrite pretty_N_go_0. by exists "".
Qed.

(** [str] of a positive integer is a string of digits. *)
Lemma str_digits (i : Z) : 0 < i → all_digits (Py.str i) = true.
Proof.
  intros Hi. destruct i as [|p|p]; try lia.
  unfold Py.str, pretty, pretty_Z, pretty, pretty_positive, pretty, pretty_N.
  case_decide; [done|].
  destruct (pretty_N_go_digits (N.pos p) "") as (d & -> & Hd).
  by rewrite all_digits_app, Hd.
Qed.

Lemma digits_split d1 : ∀ d2 r1 r2,
  all_digits d1 = true → all_digits d2 = true →
  stops_digits r1 → stops_digits r2 →
  d1 +:+ r1 = d2 +:+ r2 → d1 = d2 ∧ r1 = r2.
Proof.
  induction d1 as [|c d1 IH]; intros [|c' d2] r1 r2 H1 H2 Hr1 Hr2 Heq.
  - done.
  - rewrite append_empty_l, append_cons in Heq. subst r1.
    simpl in Hr1, H2. apply andb_true_iff in H2 as [? _]. congruence.
  - rewrite append_empty_l, append_cons in Heq. subst r2.
    simpl in Hr2, H1. apply andb_true_iff in H1 as [? _]. congruence.
  - rewrite !append_cons in Heq. injection Heq as -> Heq.
    simpl in H1, H2. apply andb_true_iff in H1 as [_ H1].
    apply andb_true_iff in H2 as [_ H2].
    destruct (IH d2 r1 r2) as [-> ->]; done.
Qed.

Lemma image_name_inj p i p' i' :
  image_name p i = image_name p' i' → p = p' ∧ i = i'.
Proof.
  unfold image_name. intros H. apply (inj (String.app "page")) in H.
  apply digits_split in H as [Hp H]; [| apply str_digits; lia ..| reflexivity | reflexivity].
  apply (inj (String.app "_img")) in H.
  apply digits_split in H as [Hi _]; [| apply str_digits; lia ..| reflexivity | reflexivity].
  apply (inj Py.str) in Hp. apply (inj Py.str) in Hi. lia.
Qed.

Lemma image_name_relative p i : Py.startswith_sep (image_name p i) = false.
Proof. reflexivity. Qed.

Lemma image_path_inj output_dir p i p' i' :
  image_path output_dir p i = image_path output_dir p' i' → p = p' ∧ i = i'.
Proof.
  unfold image_path, Py.join. rewrite !image_name_relative.
  destruct (negb _ || _); intros H; apply (inj (String.app output_dir)) in H.
  - by apply image_name_inj.
  - apply image_name_inj. congruence.
Qed.

(** ** What [qualifying] contains *)

Lemma elem_of_qualifying_from doc min_size images : ∀ img_idx i img,
  (i, img) ∈ qualifying_from doc min_size img_idx images →
  (img_idx ≤ i)%nat ∧ images !! (i - img_idx)%nat = Some img ∧
  qualifies min_size (doc_pixmap doc (img_xref img)) = true.
Proof.
  induction images as [|img0 images IH]; intros img_idx i img; simpl.
  { by intros ?%elem_of_nil. }
  destruct (qualifies min_size (doc_pixmap doc (img_xref img0))) eqn:Hq.
  - intros [Heq|Hin]%elem_of_cons.
    + injection Heq as -> ->. by rewrite Nat.sub_diag.
    + apply IH in Hin as (Hle & Hl & Hq').
      split; [lia|]. split; [|done].
      replace (i - img_idx)%nat with (S (i - S img_idx)) by lia. done.
  - intros Hin. apply IH in Hin as (Hle & Hl & Hq').
    split; [lia|]. split; [|done].
    replace (i - img_idx)%nat with (S (i - S img_idx)) by lia. done.
Qed.

Lemma elem_of_qualifying_pages doc min_size pages : ∀ k p i img,
  (p, (i, img)) ∈ qualifying_pages doc min_size k pages →
  (k ≤ p)%nat ∧
  ∃ images, pages !! (p - k)%nat = Some images ∧ images !! i = Some img ∧
            qualifies min_size (doc_pixmap doc (img_xref img)) = true.
Proof.
  induction pages as [|images pages IH]; intros k p i img; simpl.
  { by intros ?%elem_of_nil. }
  intros [Hin|Hin]%elem_of_app.
  - apply list_elem_of_fmap in Hin as ([i' img'] & Heq & Hin).
    injection Heq as -> -> ->.
    apply elem_of_qualifying_from in Hin as (_ & Hl & Hq).
    rewrite Nat.sub_0_r in Hl. split; [done|].
    exists images. by rewrite Nat.sub_diag.
  - apply IH in Hin as (Hle & images' & Hl & Hi & Hq).
    split; [lia|]. exists images'.
    replace (p - k)%nat with (S (p - S k)) by lia. done.
Qed.

Lemma elem_of_qualifying doc min_size p i img :
  (p, (i, img)) ∈ qualifying doc min_size →
  ∃ images, doc_pages doc !! p = Some images ∧ images !! i = Some img ∧
            qualifies min_size (doc_pixmap doc (img_xref img)) = true.
Proof.
  intros (_ & images & Hl & ?)%elem_of_qualifying_pages.
  rewrite Nat.sub_0_r in Hl. eauto.
Qed.

Lemma elem_of_room {A} limit count (l : list A) x :
  x ∈ room limit count l → x ∈ l.
Proof.
  unfold room. destruct (limit =? 0); [done|]. apply subseteq_take.
Qed.

Lemma qualifies_true min_size pix :
  qualifies min_size pix = true ↔
  min_size ≤ pix_width pix ∧ min_size ≤ pix_height pix.
Proof.
  unfold qualifies. rewrite negb_true_iff, orb_false_iff, !Z.ltb_ge. tauto.
Qed.

(** Every file written comes from an image that passes the size test, at
    the position its name tells. *)
Lemma saved_origin doc output_dir min_size limit p pix :
  (p, pix) ∈ (file_of doc output_dir <$> cap limit (qualifying doc min_size)) →
  ∃ page_num img_idx images img,
    p = image_path output_dir page_num img_idx ∧
    pix = written_pixmap (doc_pixmap doc (img_xref img)) ∧
    doc_pages doc !! page_num = Some images ∧ images !! img_idx = Some img ∧
    qualifies min_size (doc_pixmap doc (img_xref img)) = true.
Proof.
  intros ([pn [i img]] & Heq & Hin)%list_elem_of_fmap.
  apply elem_of_room, elem_of_qualifying in Hin as (images & ? & ? & ?).
  injection Heq as -> ->. by exists pn, i, images, img.
Qed.

(** What a run of [extract_images] saves, whatever the world is. *)
Lemma extract_images_saved w pdf_path output_dir min_size limit :
  saved (trace (extract_images w pdf_path output_dir min_size limit)) =
  match fitz_installed w, makedirs_raises w output_dir, fitz_open w pdf_path with
  | true, None, Some doc =>
      file_of doc output_dir <$> cap limit (qualifying doc min_size)
  | _, _, _ => []
  end.
Proof.
  destruct (fitz_installed w) eqn:H1.
  - destruct (makedirs_raises w output_dir) as [exn|] eqn:Hd.
    { by rewrite (extract_images_no_dir _ _ _ _ _ exn). }
    destruct (fitz_open w pdf_path) as [doc|] eqn:H2.
    + destruct (extract_images_spec w pdf_path output_dir min_size limit doc)
        as (t & -> & Hs & _); [done..|].
      cbn [trace fst]. change (Makedirs ?d :: FitzOpen ?p :: ?t)
        with ([Makedirs d; FitzOpen p] ++ t).
      rewrite !saved_app, Hs. cbn. by rewrite app_nil_r.
    + by rewrite extract_images_unreadable.
  - by rewrite extract_images_no_fitz.
Qed.

Lemma extract_images_returns w pdf_path output_dir min_size limit l :
  result (extract_images w pdf_path output_dir min_size limit) = Return l →
  l = saved_paths (trace (extract_images w pdf_path output_dir min_size limit)).
Proof.
  destruct (fitz_installed w) eqn:H1.
  - destruct (makedirs_raises w output_dir) as [exn|] eqn:Hd.
    { by rewrite (extract_images_no_dir _ _ _ _ _ exn). }
    destruct (fitz_open w pdf_path) as [doc|] eqn:H2.
    + destruct (extract_images_spec w pdf_path output_dir min_size limit doc)
        as (t & -> & Hs & _); [done..|].
      cbn [trace result fst snd]. intros [= <-].
      change (Makedirs ?d :: FitzOpen ?p :: ?t)
        with ([Makedirs d; FitzOpen p] ++ t).
      rewrite !saved_paths_app. cbn. by rewrite app_nil_r.
    + by rewrite extract_images_unreadable.
  - by rewrite extract_images_no_fitz.
Qed.

(** ** The argument parser *)

Lemma consume_all_cons st it argv :
  consume_all st (it :: argv) = (consume st it ≫= λ st', consume_all st' argv).
Proof. reflexivity. Qed.

(** How taking one word can end, and what it keeps of the state. *)
Lemma consume_spec st it :
  match consume st it with
  | (t, Return st') =>
      t = [] ∧
      (ps_pdf st = None → (∀ s, it ≠ Positional s) → ps_pdf st' = None) ∧
      ((∀ v, it ≠ OptMinSize v) → ps_min_size st' = ps_min_size st) ∧
      ((∀ v, it ≠ OptDriveFolderId v) →
         ps_drive_folder_id st' = ps_drive_folder_id st) ∧
      (it = OptUploadOnly ∨ ps_upload_only st = true →
         ps_upload_only st' = true)
  | (t, Exit c) =>
      (c = 2 ∧ ∃ reason, t = [ArgparseError reason]) ∨
      (c = 0 ∧ t = [ArgparseHelp] ∧ it = OptHelp)
  | (t, Raise _) => False
  end.
Proof.
  destruct it as [|[v|]|[v|]|[v|]|[v|]| |s|s]; cbn;
    try (destruct (ps_pdf st) eqn:Hpdf; cbn);
    try (left; split; [done|]; by eexists);
    try (right; done);
    (split; [done|]); (split; [|split; [|split]]);
    try done; try congruence;
    try (by intros [?|?]);
    try (intros Hne; by destruct (Hne (Some v)));
    try (intros _ Hne; by destruct (Hne s)).
Qed.

(** How parsing the options can end, and what it keeps of the state. *)
Lemma consume_all_spec argv : ∀ st,
  match consume_all st argv with
  | (t, Return st') =>
      t = [] ∧
      (ps_pdf st = None → (∀ s, Positional s ∉ argv) → ps_pdf st' = None) ∧
      ((∀ v, OptMinSize v ∉ argv) → ps_min_size st' = ps_min_size st) ∧
      ((∀ v, OptDriveFolderId v ∉ argv) →
         ps_drive_folder_id st' = ps_drive_folder_id st) ∧
      (OptUploadOnly ∈ argv ∨ ps_upload_only st = true →
         ps_upload_only st' = true)
  | (t, Exit c) =>
      (c = 2 ∧ ∃ reason, t = [ArgparseError reason]) ∨
      (c = 0 ∧ t = [ArgparseHelp] ∧ OptHelp ∈ argv)
  | (t, Raise _) => False
  end.
Proof.
  induction argv as [|it argv IH]; intros st.
  { cbn. do 4 (split; [done|]). by intros [?%elem_of_nil|?]. }
  rewrite consume_all_cons. pose proof (consume_spec st it) as Hit.
  destruct (consume st it) as [t1 [st1|c|e]]; cbn -[consume_all]; [| |done].
  - destruct Hit as (-> & P1 & P2 & P3 & P4). specialize (IH st1).
    destruct (consume_all st1 argv) as [t2 [st2|c|e]]; cbn; [| |done].
    + destruct IH as (-> & Q1 & Q2 & Q3 & Q4). split; [done|].
      split; [|split; [|split]].
      * intros Hnone Hpos. apply Q1.
        -- apply P1; [done|]. intros s ->. apply (Hpos s). by left.
        -- intros s Hin. apply (Hpos s). by right.
      * intros Hno. rewrite Q2, P2; [done| |].
        -- intros v ->. apply (Hno v). by left.
        -- intros v Hin. apply (Hno v). by right.
      * intros Hno. rewrite Q3, P3; [done| |].
        -- intros v ->. apply (Hno v). by left.
        -- intros v Hin. apply (Hno v). by right.
      * intros [[Heq|Hin]%elem_of_cons|Hup]; apply Q4.
        -- right. apply P4. by left.
        -- by left.
        -- right. apply P4. by right.
    + destruct IH as [?|(? & ? & Hin)]; [by left|right].
      split; [done|]. split; [done|]. by right.
  - destruct Hit as [?|(? & ? & ->)]; [by left|right].
    split; [done|]. split; [done|]. by left.
Qed.

Lemma parse_args_spec argv :
  match parse_args argv with
  | (t, Return args) =>
      t = [] ∧
      ((∀ v, OptMinSize v ∉ argv) → args_min_size args = 100) ∧
      ((∀ v, OptDriveFolderId v ∉ argv) → args_drive_folder_id args = None) ∧
      (OptUploadOnly ∈ argv → args_upload_only args = true)
  | (t, Exit c) =>
      (c = 2 ∧ ∃ reason, t = [ArgparseError reason]) ∨
      (c = 0 ∧ t = [ArgparseHelp] ∧ OptHelp ∈ argv)
  | (t, Raise _) => False
  end.
Proof.
  unfold parse_args.
  pose proof (consume_all_spec argv parser_defaults) as H.
  destruct (consume_all parser_defaults argv) as [t [st|c|e]];
    cbn -[parser_defaults] in *; [|done..].
  destruct H as (-> & _ & Hmin & Hfid & Hup).
  destruct (ps_pdf st) as [pdf|]; cbn; [|left; split; [done|]; by eexists].
  destruct (ps_extras st); cbn; [|left; split; [done|]; by eexists].
  split; [done|]. split; [done|]. split; [done|]. intros ?. apply Hup. by left.
Qed.

(** Without a positional word (and without [-h]) parsing ends with a usage
    error. *)
Lemma parse_args_no_positional argv :
  (∀ s, Positional s ∉ argv) → OptHelp ∉ argv →
  ∃ reason, parse_args argv = ([ArgparseError reason], Exit 2).
Proof.
  intros Hpos Hhelp. unfold parse_args.
  pose proof (consume_all_spec argv parser_defaults) as H.
  destruct (consume_all parser_defaults argv) as [t [st|c|e]];
    cbn -[parser_defaults] in *; [| |done].
  - destruct H as (-> & Hpdf & _). rewrite Hpdf by done. cbn. by eexists.
  - destruct H as [[-> [reason ->]]|(_ & _ & ?)]; [by eexists|done].
Qed.

(** ** main *)

Lemma main_parsed w argv args :
  parse_args argv = ([], Return args) → main w argv = run w args.
Proof.
  intros H. unfold main. rewrite H. unfold mbind, M_bind. cbn.
  by destruct (run w args).
Qed.

Lemma main_not_parsed w argv t c :
  parse_args argv = (t, Exit c) → main w argv = (t, Exit c).
Proof. intros H. unfold main. by rewrite H. Qed.

(** The run in upload-only mode without a usable folder identifier. *)
Lemma run_upload_only_no_folder w args :
  args_upload_only args = true →
  Py.truthy_opt_str (args_drive_folder_id args) = false →
  run w args = ([Stderr MsgFolderRequired], Exit 1).
Proof. intros H1 H2. unfold run. by rewrite H1, H2. Qed.

Lemma run_upload_only_no_dir w args :
  args_upload_only args = true →
  Py.truthy_opt_str (args_drive_folder_id args) = true →
  path_exists w (args_output_dir args) = false →
  run w args = ([Stderr (MsgNoOutputDir (args_output_dir args))], Exit 1).
Proof. intros H1 H2 H3. unfold run. by rewrite H1, H2, H3. Qed.

Lemma truthy_folder o :
  Py.truthy_opt_str o = true ↔ ∃ f, o = Some f ∧ f ≠ "".
Proof.
  destruct o as [[|c f]|]; cbn; split; try done.
  - by intros (? & [= <-] & ?).
  - intros _. by eexists.
  - by intros (? & ? & ?).
Qed.

(** The run in upload-only mode: the PDF path is not looked at. *)
Lemma run_upload_only w args folder_id :
  args_upload_only args = true →
  args_drive_folder_id args = Some folder_id → folder_id ≠ "" →
  path_exists w (args_output_dir args) = true →
  let image_paths := Py.sorted (glob_png w (args_output_dir args)) in
  let up := upload_to_drive w image_paths folder_id (args_limit args) in
  run w args =
  (Stdout (MsgFound (Py.len image_paths) (args_output_dir args)) ::
   Stdout (MsgUploading folder_id) ::
   trace up ++
   match result up with
   | Return uploaded => [Stdout (MsgUploadedNew uploaded)]
   | _ => []
   end,
   match result up with
   | Return _ => Return tt
   | Exit c => Exit c
   | Raise e => Raise e
   end).
Proof.
  intros H1 H2 Hne H3 image_paths up. unfold run.
  rewrite H1, H2, H3. cbn -[upload_to_drive Py.sorted].
  destruct folder_id as [|c f]; [done|]. cbn -[upload_to_drive Py.sorted].
  fold image_paths. fold up. clearbody up.
  destruct up as [t [u|c'|e]]; cbn; by rewrite ?app_nil_r.
Qed.

(** ** One iteration of the upload loop *)

Section upload_loop.
Context (folder_id : string) (names : gset string) (limit : Z).

Local Abbreviation uloop := (upload_loop folder_id names limit).

Lemma upload_loop_break path paths uploaded :
  limit_reached limit uploaded = true →
  uloop (path :: paths) uploaded = ([], Return uploaded).
Proof. intros H. simpl. by rewrite H. Qed.

Lemma upload_loop_skip path paths uploaded :
  limit_reached limit uploaded = false →
  Py.basename path ∈ names →
  uloop (path :: paths) uploaded =
  (Stdout (MsgSkipping (Py.basename path)) :: trace (uloop paths uploaded),
   result (uloop paths uploaded)).
Proof.
  intros H Hin. simpl. rewrite H, bool_decide_eq_true_2 by done.
  unfold mbind, M_bind, emit. by destruct (uloop paths uploaded).
Qed.

Lemma upload_loop_upload path paths uploaded :
  limit_reached limit uploaded = false →
  Py.basename path ∉ names →
  uloop (path :: paths) uploaded =
  (UploadFile path folder_id :: milestone (uploaded + 1) ++
     trace (uloop paths (uploaded + 1)),
   result (uloop paths (uploaded + 1))).
Proof.
  intros H Hin. simpl. rewrite H, bool_decide_eq_false_2 by done.
  unfold milestone, mbind, M_bind, emit, mret, M_ret.
  destruct (_ =? 0); by destruct (uloop paths (uploaded + 1)).
Qed.

Lemma milestone_quiet uploaded :
  uploads (milestone uploaded) = [] ∧
  decisions (milestone uploaded) = [] ∧ listings (milestone uploaded) = [] ∧
  saved (milestone uploaded) = [].
Proof. unfold milestone. by destruct (_ =? 0). Qed.

Lemma decision_skip path :
  Py.basename path ∈ names →
  decision folder_id names path = Stdout (MsgSkipping (Py.basename path)).
Proof. intros. unfold decision. by rewrite bool_decide_eq_true_2. Qed.

Lemma decision_upload path :
  Py.basename path ∉ names →
  decision folder_id names path = UploadFile path folder_id.
Proof. intros. unfold decision. by rewrite bool_decide_eq_false_2. Qed.

(** The loop as a whole: it returns the counter advanced by the number of
    uploads; it decides on a prefix of the paths, one decision per path,
    and stops before the end only with the limit test true; it uploads
    the new paths the cap leaves room for. *)
Lemma upload_loop_spec paths : ∀ uploaded,
  let r := uloop paths uploaded in
  result r = Return (uploaded + Py.len (uploads (trace r))) ∧
  uploads (trace r) = room limit uploaded (filter (λ p, Py.basename p ∉ names) paths) ∧
  listings (trace r) = [] ∧ saved (trace r) = [] ∧
  ∃ n, (n ≤ length paths)%nat ∧
    decisions (trace r) = decision folder_id names <$> take n paths ∧
    ((n < length paths)%nat →
     limit_reached limit (uploaded + Py.len (uploads (trace r))) = true).
Proof.
  induction paths as [|path paths IH]; intros uploaded; cbv zeta.
  { cbn. rewrite Z.add_0_r. split; [done|]. split.
    { unfold room. destruct (limit =? 0); by rewrite ?take_nil. }
    split; [done|]. split; [done|]. exists 0%nat. split; [done|].
    split; [done|]. cbn. lia. }
  destruct (limit_reached limit uploaded) eqn:Hl.
  { rewrite upload_loop_break, room_reached by done. cbn.
    rewrite Z.add_0_r. do 4 (split; [done|]). exists 0%nat.
    split; [lia|]. split; [done|]. done. }
  destruct (decide (Py.basename path ∈ names)) as [Hin|Hin].
  - rewrite upload_loop_skip by done. cbn [trace result fst snd].
    destruct (IH uploaded) as (IH1 & IH2 & IH3 & IH4 & n & Hn & IH5 & IH6).
    rewrite filter_cons_False by tauto.
    split; [done|]. split; [done|]. split; [done|]. split; [done|].
    exists (S n). split; [cbn; lia|]. split.
    + cbn. rewrite decision_skip by done. f_equal. apply IH5.
    + intros ?. apply IH6. cbn in *. lia.
  - rewrite upload_loop_upload by done. cbn [trace result fst snd].
    destruct (IH (uploaded + 1)) as (IH1 & IH2 & IH3 & IH4 & n & Hn & IH5 & IH6).
    destruct (milestone_quiet (uploaded + 1)) as (M1 & M3 & M4 & M5).
    rewrite filter_cons_True by done.
    rewrite room_cons by done.
    change (UploadFile ?p ?f :: ?m ++ ?t) with ([UploadFile p f] ++ m ++ t).
    rewrite !uploads_app, !listings_app, !saved_app, !decisions_app.
    rewrite M1, M3, M4, M5, IH2, IH3, IH4.
    change (uploads [UploadFile path folder_id]) with [path].
    change (listings [UploadFile path folder_id]) with (@nil string).
    change (saved [UploadFile path folder_id]) with (@nil (string * Pixmap)).
    change (decisions [UploadFile path folder_id])
      with [UploadFile path folder_id].
    cbn [app].
    split. { rewrite IH1, IH2. f_equal. unfold Py.len. cbn [length]. lia. }
    split; [done|]. split; [done|]. split; [done|].
    exists (S n). split; [cbn; lia|]. split.
    + cbn. rewrite decision_upload by done. f_equal. apply IH5.
    + intros ?. rewrite IH2 in IH6. cbn.
      replace (uploaded + Py.len (path :: room limit (uploaded + 1)
                 (filter (λ p, Py.basename p ∉ names) paths)))
        with (uploaded + 1 + Py.len (room limit (uploaded + 1)
                 (filter (λ p, Py.basename p ∉ names) paths))).
      * apply IH6. cbn in *. lia.
      * unfold Py.len. cbn [length]. lia.
Qed.
End upload_loop.

(** ** upload_to_drive as a whole *)

Lemma upload_to_drive_no_gwsa w paths folder_id limit :
  gwsa_installed w = false →
  upload_to_drive w paths folder_id limit = ([Stderr MsgNoGwsa], Exit 1).
Proof. intros H. unfold upload_to_drive. by rewrite H. Qed.

Lemma upload_to_drive_spec w paths folder_id limit :
  gwsa_installed w = true →
  let names := existing_names_of (list_folder w folder_id) in
  ∃ t,
    upload_to_drive w paths folder_id limit =
      (ListFolder folder_id :: t, Return (Py.len (uploads t))) ∧
    uploads t = cap limit (filter (λ p, Py.basename p ∉ names) paths) ∧
    listings t = [] ∧ saved t = [] ∧
    ∃ n, (n ≤ length paths)%nat ∧
      decisions t = decision folder_id names <$> take n paths ∧
      ((n < length paths)%nat →
       limit_reached limit (Py.len (uploads t)) = true).
Proof.
  intros H names.
  destruct (upload_loop_spec folder_id names limit paths 0)
    as (Hr & Hu & Hrest).
  cbv zeta in *. unfold upload_to_drive. rewrite H. fold names.
  unfold mbind, M_bind, emit, mret, M_ret. cbn -[upload_loop].
  destruct (upload_loop _ _ _ _ _) as [t o]. cbn [trace result fst snd] in *.
  subst o. exists t. rewrite !Z.add_0_l in *. done.
Qed.

(** The upload phase never writes a file to the disk. *)
Lemma upload_to_drive_saved w paths folder_id limit :
  saved (trace (upload_to_drive w paths folder_id limit)) = [].
Proof.
  destruct (gwsa_installed w) eqn:H.
  - destruct (upload_to_drive_spec w paths folder_id limit H)
      as (t & -> & _ & _ & Hs & _). cbn [trace fst].
    change (ListFolder ?f :: ?t) with ([ListFolder f] ++ t).
    by rewrite saved_app, Hs.
  - by rewrite upload_to_drive_no_gwsa.
Qed.

(** The run in the default mode, once the PDF is found and extraction
    returned. *)
Lemma run_default w args t_ext image_paths :
  args_upload_only args = false →
  path_exists w (args_pdf args) = true →
  extract_images w (args_pdf args) (args_output_dir args)
    (args_min_size args) (args_limit args) = (t_ext, Return image_paths) →
  run w args =
  match args_drive_folder_id args with
  | Some (String c f) =>
      let folder_id := String c f in
      let up := upload_to_drive w image_paths folder_id 0 in
      (t_ext ++
       Stdout (MsgExtractedTotal (Py.len image_paths) (args_output_dir args)) ::
       Stdout (MsgUploading folder_id) ::
       trace up ++
       match result up with
       | Return uploaded => [Stdout (MsgUploadedNew uploaded)]
       | _ => []
       end,
       match result up with
       | Return _ => Return tt
       | Exit c => Exit c
       | Raise e => Raise e
       end)
  | _ =>
      (t_ext ++
       [Stdout (MsgExtractedTotal (Py.len image_paths) (args_output_dir args))],
       Return tt)
  end.
Proof.
  intros H1 H2 H3. unfold run. rewrite H1, H2, H3.
  cbn -[upload_to_drive].
  destruct (args_drive_folder_id args) as [[|c f]|]; cbn -[upload_to_drive].
  - by rewrite app_nil_r.
  - destruct (upload_to_drive _ _ _ _) as [t [u|c'|e]]; cbn;
      by rewrite <- app_assoc, ?app_nil_r.
  - by rewrite app_nil_r.
Qed.

Lemma run_default_failed w args :
  args_upload_only args = false →
  path_exists w (args_pdf args) = true →
  let ex := extract_images w (args_pdf args) (args_output_dir args)
              (args_min_size args) (args_limit args) in
  (∀ l, result ex ≠ Return l) →
  trace (run w args) = trace ex.
Proof.
  intros H1 H2 ex Hr. unfold run. rewrite H1, H2. fold ex. clearbody ex.
  destruct ex as [t [l|c|e]]; [by destruct (Hr l)|done..].
Qed.

Lemma run_default_no_pdf w args :
  args_upload_only args = false →
  path_exists w (args_pdf args) = false →
  run w args = ([Stderr (MsgPdfNotFound (args_pdf args))], Exit 1).
Proof. intros H1 H2. unfold run. by rewrite H1, H2. Qed.

(** Whatever the mode, the only files a run writes are those
    [extract_images] writes in the default mode. *)
Lemma run_saved w args :
  saved (trace (run w args)) =
  if args_upload_only args then []
  else if path_exists w (args_pdf args)
       then saved (trace (extract_images w (args_pdf args) (args_output_dir args)
                            (args_min_size args) (args_limit args)))
       else [].
Proof.
  destruct (args_upload_only args) eqn:H1.
  - destruct (Py.truthy_opt_str (args_drive_folder_id args)) eqn:H2.
    + destruct (path_exists w (args_output_dir args)) eqn:H3.
      * apply truthy_folder in H2 as (f & H2 & Hne).
        rewrite (run_upload_only w args f) by done. cbn [trace fst].
        change (Stdout ?a :: Stdout ?b :: ?t) with ([Stdout a; Stdout b] ++ t).
        rewrite !saved_app, upload_to_drive_saved.
        by destruct (result _).
      * by rewrite run_upload_only_no_dir.
    + by rewrite run_upload_only_no_folder.
  - destruct (path_exists w (args_pdf args)) eqn:H2.
    + destruct (extract_images w (args_pdf args) (args_output_dir args)
                  (args_min_size args) (args_limit args))
        as [t_ext [l|c|e]] eqn:Hex.
      * rewrite (run_default w args t_ext l) by done.
        destruct (args_drive_folder_id args) as [[|c f]|];
          cbn [trace fst]; rewrite !saved_app; cbn; rewrite ?app_nil_r; try done.
        change (Stdout ?a :: Stdout ?b :: ?t) with ([Stdout a; Stdout b] ++ t).
        rewrite !saved_app, upload_to_drive_saved. cbn.
        destruct (result _); cbn; by rewrite app_nil_r.
      * rewrite run_default_failed; rewrite ?Hex; done.
      * rewrite run_default_failed; rewrite ?Hex; done.
    + by rewrite run_default_no_pdf.
Qed.

Lemma main_saved w argv :
  saved (trace (main w argv)) = [] ∨
  ∃ args, parse_args argv = ([], Return args) ∧
          saved (trace (main w argv)) = saved (trace (run w args)).
Proof.
  pose proof (parse_args_spec argv) as H.
  destruct (parse_args argv) as [t [args|c|e]] eqn:Hp; [| |done].
  - destruct H as [-> _]. right. exists args. split; [done|].
    by rewrite (main_parsed w argv args).
  - left. rewrite (main_not_parsed w argv t c) by done. cbn.
    by destruct H as [(_ & ? & ->)|(_ & -> & _)].
Qed.

(** With a positive limit, every step of the traversal is taken with fewer
    files written than the limit. *)
Lemma extract_images_stops w pdf_path output_dir min_size L t1 e t2 :
  0 < L →
  trace (extract_images w pdf_path output_dir min_size L) = t1 ++ e :: t2 →
  is_traversal e = true → Py.len (saved t1) < L.
Proof.
  intros HL Ht He.
  destruct (fitz_installed w) eqn:H1.
  + destruct (makedirs_raises w output_dir) as [exn|] eqn:Hd.
    { rewrite (extract_images_no_dir _ _ _ _ _ exn) in Ht by done. cbn in Ht.
      destruct t1 as [|? [|? ?]]; simplify_eq/=. }
    destruct (fitz_open w pdf_path) as [doc|] eqn:H2.
    * destruct (extract_images_spec w pdf_path output_dir min_size L doc)
        as (t & Hrun & _ & Hg); [done..|].
      rewrite Hrun in Ht. cbn [trace fst] in Ht.
      assert (guarded L 0 (Makedirs output_dir :: FitzOpen pdf_path ::
                             t ++ [DocClose])) as Hg'.
      { split; [done|]. split; [done|]. apply guarded_app. split; [done|].
        by apply guarded_no_traversal, Forall_singleton. }
      pose proof (guarded_split _ _ _ _ _ _ Hg' Ht He) as Hlt.
      apply limit_reached_false in Hlt. lia.
    * rewrite extract_images_unreadable in Ht by done. cbn in Ht.
      destruct t1 as [|? [|? [|? ?]]]; simplify_eq/=.
  + rewrite extract_images_no_fitz in Ht by done. cbn in Ht.
    destruct t1 as [|? [|? ?]]; simplify_eq/=.
Qed.

(** * The claims *)

(** C1. Whatever the minimum size [m] is, every file [extract_images] writes
    has width and height at least [m]; the path of an image whose width or
    height is below [m] is neither written nor in the returned list; and a
    run of the program without [-m/--min-size] writes no file with a width
    or a height below 100. *)
Theorem extract_images_min_size w pdf_path output_dir m limit :
  let r := extract_images w pdf_path output_dir m limit in
  (∀ p pix, (p, pix) ∈ saved (trace r) →
            m ≤ pix_width pix ∧ m ≤ pix_height pix) ∧
  (∀ doc page_num images img_idx img,
     fitz_open w pdf_path = Some doc →
     doc_pages doc !! page_num = Some images →
     images !! img_idx = Some img →
     (pix_width (doc_pixmap doc (img_xref img)) < m ∨
      pix_height (doc_pixmap doc (img_xref img)) < m) →
     (image_path output_dir page_num img_idx ∉ saved_paths (trace r)) ∧
     (∀ l, result r = Return l → image_path output_dir page_num img_idx ∉ l)) ∧
  (∀ argv p pix,
     (∀ v, OptMinSize v ∉ argv) →
     (p, pix) ∈ saved (trace (main w argv)) →
     100 ≤ pix_width pix ∧ 100 ≤ pix_height pix).
Proof.
  assert (∀ pdf dir m' limit' p pix,
            (p, pix) ∈ saved (trace (extract_images w pdf dir m' limit')) →
            m' ≤ pix_width pix ∧ m' ≤ pix_height pix) as Hsize.
  { intros pdf dir m' limit' p pix. rewrite extract_images_saved.
    destruct (fitz_installed w); [|by intros ?%elem_of_nil].
    destruct (makedirs_raises w dir); [by intros ?%elem_of_nil|].
    destruct (fitz_open w pdf) as [doc|]; [|by intros ?%elem_of_nil].
    intros (pn & i & images & img & _ & -> & _ & _ & Hq)%saved_origin.
    apply qualifies_true in Hq.
    by destruct (written_pixmap_size (doc_pixmap doc (img_xref img))) as [-> ->]. }
  cbv zeta. split; [apply Hsize|]. split.
  - intros doc page_num images img_idx img Hdoc Hpage Himg Hsmall.
    assert (image_path output_dir page_num img_idx ∉
            saved_paths (trace (extract_images w pdf_path output_dir m limit)))
      as Hnot.
    { unfold saved_paths. rewrite extract_images_saved, Hdoc.
      destruct (fitz_installed w); [|by intros ?%elem_of_nil].
      destruct (makedirs_raises w output_dir); [by intros ?%elem_of_nil|].
      intros ([p pix] & Heq & Hin)%list_elem_of_fmap. cbn in Heq. subst p.
      apply saved_origin
        in Hin as (pn & i & images' & img' & Hpath & _ & Hpage' & Himg' & Hq).
      apply image_path_inj in Hpath as [<- <-].
      assert (img' = img) as -> by congruence.
      apply qualifies_true in Hq. lia. }
    split; [done|]. by intros l ->%extract_images_returns.
  - intros argv p pix Hdefault Hin.
    destruct (main_saved w argv) as [Hnone|(args & Hparse & Hsaved)].
    { rewrite Hnone in Hin. by apply elem_of_nil in Hin. }
    rewrite Hsaved, run_saved in Hin.
    pose proof (parse_args_spec argv) as Hspec. rewrite Hparse in Hspec.
    destruct Hspec as (_ & Hmin & _). rewrite Hmin in Hin by done.
    destruct (args_upload_only args); [by apply elem_of_nil in Hin|].
    destruct (path_exists w (args_pdf args)); [|by apply elem_of_nil in Hin].
    by apply Hsize in Hin.
Qed.

Lemma extract_images_min_size_witness :
  let w := Sample.world Sample.mixed [] [] in
  let r := extract_images w "a.pdf" "out" 100 0 in
  (100 ≤ pix_width (Sample.rgb 640 480) ∧ 100 ≤ pix_height (Sample.rgb 640 480)) ∧
  (("out/page1_img2.png" ∉ saved_paths (trace r)) ∧
   (∀ l, result r = Return l → "out/page1_img2.png" ∉ l)) ∧
  (100 ≤ pix_width (Sample.rgb 640 480) ∧ 100 ≤ pix_height (Sample.rgb 640 480)).
Proof.
  intros w r.
  destruct (extract_images_min_size w "a.pdf" "out" 100 0) as (H1 & H2 & H3).
  split; [|split].
  - apply (H1 "out/page1_img1.png"). vm_compute. left.
  - apply (H2 Sample.mixed 0%nat [Sample.entry 11; Sample.entry 12] 1%nat
             (Sample.entry 12)); [reflexivity..|]. left. vm_compute. reflexivity.
  - apply (H3 [Positional "a.pdf"] "./extracted_images/page3_img2.png").
    + intros v Hin. apply list_elem_of_In in Hin. simpl in Hin.
      destruct Hin as [Hin|[]]. discriminate Hin.
    + vm_compute. do 2 right. left.
Defined.

(** C2. With a positive limit [L], [extract_images] writes at most [L]
    files and returns a list of at most [L] paths, the paths it wrote; no
    page is loaded, no pixmap resolved or converted and no file written once
    [L] files are written (the test guards the entry of a page and every
    image); and on a readable PDF the function returns. *)
Theorem extract_images_limit w pdf_path output_dir min_size L :
  0 < L →
  let r := extract_images w pdf_path output_dir min_size L in
  Py.len (saved (trace r)) ≤ L ∧
  (∀ l, result r = Return l → l = saved_paths (trace r) ∧ Py.len l ≤ L) ∧
  (∀ t1 e t2, trace r = t1 ++ e :: t2 → is_traversal e = true →
              Py.len (saved t1) < L) ∧
  (∀ doc, fitz_installed w = true → makedirs_raises w output_dir = None →
          fitz_open w pdf_path = Some doc → ∃ l, result r = Return l).
Proof.
  intros HL r.
  assert (Py.len (saved (trace r)) ≤ L) as Hcount.
  { unfold r. rewrite extract_images_saved.
    destruct (fitz_installed w); [|by unfold Py.len; cbn; lia].
    destruct (makedirs_raises w output_dir); [by unfold Py.len; cbn; lia|].
    destruct (fitz_open w pdf_path) as [doc|]; [|by unfold Py.len; cbn; lia].
    unfold Py.len. rewrite length_fmap.
    pose proof (room_length L 0 (qualifying doc min_size) HL).
    unfold cap, Py.len in *. lia. }
  split; [done|]. split; [|split].
  - intros l Hl. apply extract_images_returns in Hl. fold r in Hl. subst l.
    split; [done|]. unfold saved_paths, Py.len in *. by rewrite length_fmap.
  - intros t1 e t2 Ht He. by apply (extract_images_stops w pdf_path output_dir min_size L t1 e t2).
  - intros doc H1 Hd H2.
    destruct (extract_images_spec w pdf_path output_dir min_size L doc)
      as (t & Hrun & _); [done..|].
    unfold r. rewrite Hrun. by eexists.
Qed.

Lemma extract_images_limit_witness :
  let r := extract_images (Sample.world Sample.mixed [] []) "a.pdf" "out" 100 3 in
  Py.len (saved (trace r)) ≤ 3 ∧
  (∀ l, result r = Return l → l = saved_paths (trace r) ∧ Py.len l ≤ 3) ∧
  (∀ t1 e t2, trace r = t1 ++ e :: t2 → is_traversal e = true →
              Py.len (saved t1) < 3) ∧
  (∀ doc, fitz_installed (Sample.world Sample.mixed [] []) = true →
          makedirs_raises (Sample.world Sample.mixed [] []) "out" = None →
          fitz_open (Sample.world Sample.mixed [] []) "a.pdf" = Some doc →
          ∃ l, result r = Return l).
Proof.
  apply (extract_images_limit (Sample.world Sample.mixed [] []) "a.pdf" "out" 100 3).
  lia.
Defined.

(** ** A negative limit *)

Lemma limit_reached_negative limit count :
  limit < 0 → 0 ≤ count → limit_reached limit count = true.
Proof. intros. apply limit_reached_true. lia. Qed.

Lemma page_loop_negative doc output_dir min_size limit page_nums extracted :
  limit < 0 →
  page_loop doc output_dir min_size limit page_nums extracted =
  ([], Return extracted).
Proof.
  intros H. destruct page_nums as [|page_num page_nums]; [done|].
  apply page_loop_break, limit_reached_negative; [done|apply len_nonneg].
Qed.

Lemma upload_loop_negative folder_id names limit paths :
  limit < 0 → upload_loop folder_id names limit paths 0 = ([], Return 0).
Proof.
  intros H. destruct paths as [|path paths]; [done|].
  by apply upload_loop_break, limit_reached_negative.
Qed.

(** C10. With a negative limit, [extract_images] on a readable PDF, its
    output directory being there or created, opens and closes the document
    and returns the empty list, and in no case writes a file;
    [upload_to_drive] lists the folder and returns 0, and in no case
    uploads a file. *)
Theorem negative_limit w limit :
  limit < 0 →
  (∀ pdf_path output_dir min_size doc,
     fitz_installed w = true → makedirs_raises w output_dir = None →
     fitz_open w pdf_path = Some doc →
     extract_images w pdf_path output_dir min_size limit =
     ([Makedirs output_dir; FitzOpen pdf_path; DocClose], Return [])) ∧
  (∀ pdf_path output_dir min_size,
     saved (trace (extract_images w pdf_path output_dir min_size limit)) = []) ∧
  (∀ image_paths folder_id,
     gwsa_installed w = true →
     upload_to_drive w image_paths folder_id limit =
     ([ListFolder folder_id], Return 0)) ∧
  (∀ image_paths folder_id,
     uploads (trace (upload_to_drive w image_paths folder_id limit)) = []).
Proof.
  intros Hneg.
  assert (∀ pdf_path output_dir min_size doc,
     fitz_installed w = true → makedirs_raises w output_dir = None →
     fitz_open w pdf_path = Some doc →
     extract_images w pdf_path output_dir min_size limit =
     ([Makedirs output_dir; FitzOpen pdf_path; DocClose], Return [])) as Hex.
  { intros pdf_path output_dir min_size doc H1 Hd H2.
    unfold extract_images, os_makedirs.
    rewrite H1, Hd, H2. cbn -[page_loop]. by rewrite page_loop_negative. }
  assert (∀ image_paths folder_id,
     gwsa_installed w = true →
     upload_to_drive w image_paths folder_id limit =
     ([ListFolder folder_id], Return 0)) as Hup.
  { intros image_paths folder_id H. unfold upload_to_drive. rewrite H.
    cbn -[upload_loop]. by rewrite upload_loop_negative. }
  split; [done|]. split; [|split; [done|]].
  - intros pdf_path output_dir min_size.
    destruct (fitz_installed w) eqn:H1.
    + destruct (makedirs_raises w output_dir) as [exn|] eqn:Hd.
      { by rewrite (extract_images_no_dir _ _ _ _ _ exn). }
      destruct (fitz_open w pdf_path) as [doc|] eqn:H2.
      * by rewrite (Hex _ _ _ doc).
      * by rewrite extract_images_unreadable.
    + by rewrite extract_images_no_fitz.
  - intros image_paths folder_id. destruct (gwsa_installed w) eqn:H.
    + by rewrite Hup.
    + by rewrite upload_to_drive_no_gwsa.
Qed.

Lemma negative_limit_witness :
  let w := Sample.world Sample.report [] [] in
  extract_images w "a.pdf" "out" 100 (-1) =
    ([Makedirs "out"; FitzOpen "a.pdf"; DocClose], Return []) ∧
  upload_to_drive w ["out/page1_img1.png"] "F" (-1) =
    ([ListFolder "F"], Return 0).
Proof.
  intros w. destruct (negative_limit w (-1)) as (H1 & _ & H3 & _); [lia|].
  split.
  - by apply (H1 "a.pdf" "out" 100 Sample.report).
  - by apply (H3 ["out/page1_img1.png"] "F").
Defined.

(** ** Pages of qualifying images only *)

Lemma qualifying_from_length doc min_size images : ∀ img_idx,
  (length (qualifying_from doc min_size img_idx images) ≤ length images)%nat.
Proof.
  induction images as [|img images IH]; intros img_idx; simpl; [done|].
  destruct (qualifies _ _); simpl; specialize (IH (S img_idx)); lia.
Qed.

Lemma qualifying_from_all doc min_size images : ∀ img_idx,
  length (qualifying_from doc min_size img_idx images) = length images →
  (qualifying_from doc min_size img_idx images).*1 = seq img_idx (length images).
Proof.
  induction images as [|img images IH]; intros img_idx; simpl; [done|].
  destruct (qualifies _ _); simpl.
  - intros [= H]. by rewrite IH.
  - pose proof (qualifying_from_length doc min_size images (S img_idx)). lia.
Qed.

(** C5. On a PDF of three pages with 2, 0 and 5 qualifying images, with
    limit 4, [extract_images], its output directory being there or
    created, returns and writes exactly four files: those
    of the two qualifying images of page 1 and of the first two qualifying
    images of page 3, each named by its 1-based page and image index; after
    the fourth no further step of the traversal is taken; and when the pages
    hold nothing but these images the indices are 1, 2 and 1, 2. *)
Theorem extract_images_2_0_5 w pdf_path output_dir min_size doc p1 p2 p3 :
  fitz_installed w = true → makedirs_raises w output_dir = None →
  fitz_open w pdf_path = Some doc →
  doc_pages doc = [p1; p2; p3] →
  length (qualifying_from doc min_size 0 p1) = 2%nat →
  length (qualifying_from doc min_size 0 p2) = 0%nat →
  length (qualifying_from doc min_size 0 p3) = 5%nat →
  ∃ i1 i2 j1 j2 t,
    let files := [image_path output_dir 0 i1; image_path output_dir 0 i2;
                  image_path output_dir 2 j1; image_path output_dir 2 j2] in
    (qualifying_from doc min_size 0 p1).*1 = [i1; i2] ∧
    take 2 (qualifying_from doc min_size 0 p3).*1 = [j1; j2] ∧
    extract_images w pdf_path output_dir min_size 4 = (t, Return files) ∧
    saved_paths t = files ∧
    (∀ t1 e t2, t = t1 ++ e :: t2 → is_traversal e = true →
                Py.len (saved t1) < 4) ∧
    (length p1 = 2%nat → length p3 = 5%nat →
     i1 = 0%nat ∧ i2 = 1%nat ∧ j1 = 0%nat ∧ j2 = 1%nat).
Proof.
  intros H1 Hd H2 Hpages Hq1 Hq2 Hq3.
  destruct (extract_images_spec w pdf_path output_dir min_size 4 doc)
    as (t & Hrun & Hs & Hg); [done..|].
  pose proof (qualifying_from_all doc min_size p1 0) as Hall1.
  pose proof (qualifying_from_all doc min_size p3 0) as Hall3.
  unfold qualifying in Hs. rewrite Hpages in Hs. cbn [qualifying_pages] in Hs.
  destruct (qualifying_from doc min_size 0 p1) as [|[i1 a1] [|[i2 a2] [|? ?]]];
    try discriminate Hq1.
  destruct (qualifying_from doc min_size 0 p2) as [|? ?]; try discriminate Hq2.
  destruct (qualifying_from doc min_size 0 p3)
    as [|[j1 b1] [|[j2 b2] [|[j3 b3] [|[j4 b4] [|[j5 b5] [|? ?]]]]]];
    try discriminate Hq3.
  cbn in Hs.
  assert (saved_paths t =
          [image_path output_dir 0 i1; image_path output_dir 0 i2;
           image_path output_dir 2 j1; image_path output_dir 2 j2]) as Hpaths.
  { unfold saved_paths. by rewrite Hs. }
  exists i1, i2, j1, j2, (Makedirs output_dir :: FitzOpen pdf_path :: t ++ [DocClose]).
  cbv zeta. split; [done|]. split; [done|]. split; [by rewrite Hrun, Hpaths|].
  split; [|split].
  - change (Makedirs ?d :: FitzOpen ?p :: ?t) with ([Makedirs d; FitzOpen p] ++ t).
    rewrite !saved_paths_app, Hpaths. done.
  - intros t1 e t2 Ht He.
    apply (extract_images_stops w pdf_path output_dir min_size 4 t1 e t2);
      [done| |done]. by rewrite Hrun.
  - intros Hl1 Hl3. rewrite Hl1 in Hall1. rewrite Hl3 in Hall3.
    specialize (Hall1 eq_refl). specialize (Hall3 eq_refl).
    cbn in Hall1, Hall3. by simplify_eq.
Qed.

Lemma extract_images_2_0_5_witness :
  ∃ t, extract_images (Sample.world Sample.report [] []) "a.pdf" "out" 100 4 =
       (t, Return ["out/page1_img1.png"; "out/page1_img2.png";
                   "out/page3_img1.png"; "out/page3_img2.png"]).
Proof.
  destruct (extract_images_2_0_5 (Sample.world Sample.report [] []) "a.pdf"
              "out" 100 Sample.report
              [Sample.entry 11; Sample.entry 12] []
              [Sample.entry 31; Sample.entry 32; Sample.entry 33;
               Sample.entry 34; Sample.entry 35])
    as (i1 & i2 & j1 & j2 & t & Hi & Hj & Hrun & _ & _ & Hidx);
    [reflexivity..|].
  destruct Hidx as (-> & -> & -> & ->); [reflexivity..|].
  exists t. exact Hrun.
Defined.

(** ** The names of the remote folder *)

Lemma elem_of_existing_names existing f :
  f ∈ existing_names_of existing ↔
  ∃ item, item ∈ default [] (listing_items existing) ∧ item_name item = f.
Proof.
  unfold existing_names_of. rewrite elem_of_list_to_set, list_elem_of_fmap.
  split; intros (item & ? & ?); by exists item.
Qed.

(** C3. [upload_to_drive] lists the folder once, before the loop, and then
    takes one decision per path of a prefix of the list, in order: the path
    is reported as skipped exactly when its basename is the name of an item
    of that listing, and handed to [upload_file] exactly when it is not.
    The loop stops before the end of the list only when the cap is set and
    reached. *)
Theorem upload_skips_existing w image_paths folder_id limit :
  gwsa_installed w = true →
  let names := existing_names_of (list_folder w folder_id) in
  ∃ t n,
    upload_to_drive w image_paths folder_id limit =
      (ListFolder folder_id :: t, Return (Py.len (uploads t))) ∧
    listings t = [] ∧
    (n ≤ length image_paths)%nat ∧
    decisions t = decision folder_id names <$> take n image_paths ∧
    ((n < length image_paths)%nat → limit ≠ 0 ∧ limit ≤ Py.len (uploads t)) ∧
    (∀ i path, take n image_paths !! i = Some path →
       (decisions t !! i = Some (Stdout (MsgSkipping (Py.basename path))) ↔
        Py.basename path ∈ names) ∧
       (decisions t !! i = Some (UploadFile path folder_id) ↔
        Py.basename path ∉ names)) ∧
    (∀ f, f ∈ names ↔
          ∃ item, item ∈ default [] (listing_items (list_folder w folder_id)) ∧
                  item_name item = f).
Proof.
  intros H names.
  destruct (upload_to_drive_spec w image_paths folder_id limit H)
    as (t & Hrun & _ & Hl & _ & n & Hn & Hd & Hstop).
  fold names in Hd. exists t, n.
  split; [done|]. split; [done|]. split; [done|]. split; [done|].
  split; [|split].
  - intros Hlt. by apply limit_reached_true, Hstop.
  - intros i path Hi. rewrite Hd, list_lookup_fmap, Hi. cbn.
    destruct (decide (Py.basename path ∈ names)) as [Hin|Hin].
    + rewrite decision_skip by done. split; [done|]. split; [done|]. tauto.
    + rewrite decision_upload by done. split; [|done]. split; [done|tauto].
  - intros f. apply elem_of_existing_names.
Qed.

Lemma upload_skips_existing_witness :
  ∃ t, upload_to_drive (Sample.world Sample.report [] ["b.png"])
         ["out/a.png"; "out/b.png"; "out/c.png"] "F" 0 =
       (ListFolder "F" :: t, Return (Py.len (uploads t))) ∧
       decisions t = [UploadFile "out/a.png" "F"; Stdout (MsgSkipping "b.png");
                      UploadFile "out/c.png" "F"].
Proof.
  destruct (upload_skips_existing (Sample.world Sample.report [] ["b.png"])
              ["out/a.png"; "out/b.png"; "out/c.png"] "F" 0 eq_refl)
    as (t & n & Hrun & _ & Hn & Hd & Hstop & _).
  exists t. split; [exact Hrun|].
  destruct (decide (n < 3)%nat) as [Hlt|Hge].
  - destruct (Hstop Hlt) as [Hne _]. by destruct Hne.
  - rewrite Hd, take_ge by (cbn in *; lia). by vm_compute.
Defined.

(** C9. [upload_to_drive] lists the folder once and uploads, in order, the
    paths whose basename is not in that listing, as far as the cap allows;
    the basenames uploaded during the run are not added to the set, so of
    two paths with one basename that is not in the listing both are
    uploaded and both count: without a cap, or with a cap of 2 or more,
    the run on the two uploads both and returns 2, with a cap of 1 it
    uploads the first only. *)
Theorem upload_no_dedup w image_paths folder_id limit :
  gwsa_installed w = true →
  let names := existing_names_of (list_folder w folder_id) in
  ∃ t,
    upload_to_drive w image_paths folder_id limit =
      (ListFolder folder_id :: t, Return (Py.len (uploads t))) ∧
    listings t = [] ∧
    uploads t = cap limit (filter (λ p, Py.basename p ∉ names) image_paths) ∧
    (∀ p q, image_paths = [p; q] → Py.basename p = Py.basename q →
            Py.basename p ∉ names →
            (limit = 0 ∨ 2 ≤ limit → uploads t = [p; q]) ∧
            (limit = 1 → uploads t = [p])).
Proof.
  intros H names.
  destruct (upload_to_drive_spec w image_paths folder_id limit H)
    as (t & Hrun & Hu & Hl & _).
  fold names in Hu. exists t. do 3 (split; [done|]).
  intros p q -> Hpq Hp. rewrite Hu.
  rewrite filter_cons_True, filter_cons_True by (by rewrite <- ?Hpq).
  unfold cap, room. split.
  - intros [->|Hge]; [reflexivity|]. destruct (Z.eqb_spec limit 0); [done|].
    replace (Z.to_nat (limit - 0)) with (S (S (Z.to_nat (limit - 2)))) by lia.
    cbn. by rewrite take_nil.
  - intros ->. reflexivity.
Qed.

Lemma upload_no_dedup_witness :
  ∃ t, upload_to_drive (Sample.world Sample.report [] ["b.png"])
         ["run1/a.png"; "run2/a.png"] "F" 0 =
       (ListFolder "F" :: t, Return (Py.len (uploads t))) ∧
       uploads t = ["run1/a.png"; "run2/a.png"].
Proof.
  destruct (upload_no_dedup (Sample.world Sample.report [] ["b.png"])
              ["run1/a.png"; "run2/a.png"] "F" 0 eq_refl)
    as (t & Hrun & _ & _ & Hdup).
  exists t. split; [exact Hrun|].
  apply (Hdup "run1/a.png" "run2/a.png"); [reflexivity..| |by left].
  by vm_compute.
Defined.

(** ** Running the upload twice *)

Lemma uploads_of_decisions folder_id names paths :
  uploads (decision folder_id names <$> paths) =
  filter (λ p, Py.basename p ∉ names) paths.
Proof.
  induction paths as [|p paths IH]; [done|]. rewrite fmap_cons.
  change (?e :: ?l) with ([e] ++ l) at 1. rewrite uploads_app, IH.
  destruct (decide (Py.basename p ∈ names)) as [Hin|Hin].
  - rewrite decision_skip, filter_cons_False by tauto. done.
  - by rewrite decision_upload, filter_cons_True.
Qed.

Lemma decisions_cons e t :
  decisions (e :: t) = if is_decision e then e :: decisions t else decisions t.
Proof.
  unfold decisions. rewrite filter_cons.
  destruct (is_decision e); by case_decide.
Qed.

Lemma uploads_decisions t : uploads (decisions t) = uploads t.
Proof.
  induction t as [|e t IH]; [done|]. rewrite decisions_cons.
  destruct e as [| | | | | | | |p f|[]| | |]; cbn; try by rewrite ?IH.
  f_equal. apply IH.
Qed.

Lemma trace_upload_to_drive w paths folder_id limit t o :
  upload_to_drive w paths folder_id limit = (ListFolder folder_id :: t, o) →
  uploads (trace (upload_to_drive w paths folder_id limit)) = uploads t ∧
  decisions (trace (upload_to_drive w paths folder_id limit)) = decisions t.
Proof. by intros ->. Qed.

(** C4, as the code has it.  Let a second run take the same paths, its
    listing holding the names of the first listing and the basename of
    every path the first run uploaded.  Then the second run uploads no path
    whose basename the first run uploaded; and when the first run ended
    below its cap (so, whenever it had none), the second run uploads
    nothing and returns 0, and, its own limit not being negative, reports
    every path as skipped. *)
Theorem upload_rerun w1 w2 image_paths folder_id limit1 limit2 :
  gwsa_installed w1 = true → gwsa_installed w2 = true →
  let names1 := existing_names_of (list_folder w1 folder_id) in
  let names2 := existing_names_of (list_folder w2 folder_id) in
  let first := upload_to_drive w1 image_paths folder_id limit1 in
  let second := upload_to_drive w2 image_paths folder_id limit2 in
  names1 ⊆ names2 →
  (∀ p, p ∈ uploads (trace first) → Py.basename p ∈ names2) →
  (∀ p q, p ∈ uploads (trace second) → q ∈ uploads (trace first) →
          Py.basename p ≠ Py.basename q) ∧
  (∀ u, result first = Return u → limit_reached limit1 u = false →
        uploads (trace second) = [] ∧ result second = Return 0 ∧
        (0 ≤ limit2 →
         decisions (trace second) =
         (λ p, Stdout (MsgSkipping (Py.basename p))) <$> image_paths)) ∧
  (limit1 = 0 → uploads (trace second) = [] ∧ result second = Return 0).
Proof.
  intros G1 G2 names1 names2 first second Hsub Hnow.
  destruct (upload_to_drive_spec w1 image_paths folder_id limit1 G1)
    as (t1 & Hrun1 & Hu1 & _ & _ & n1 & Hn1 & Hd1 & Hstop1).
  destruct (upload_to_drive_spec w2 image_paths folder_id limit2 G2)
    as (t2 & Hrun2 & Hu2 & _ & _ & n2 & Hn2 & Hd2 & Hstop2).
  fold names1 in Hu1, Hd1. fold names2 in Hu2, Hd2.
  destruct (trace_upload_to_drive _ _ _ _ _ _ Hrun1) as [Ht1 _].
  destruct (trace_upload_to_drive _ _ _ _ _ _ Hrun2) as [Ht2 Hdec2].
  fold first in Hrun1, Ht1. fold second in Hrun2, Ht2, Hdec2.
  rewrite Ht1 in Hnow. rewrite Ht1, Ht2, Hdec2.
  assert (∀ u, result first = Return u → limit_reached limit1 u = false →
            uploads t2 = [] ∧ result second = Return 0 ∧
            (0 ≤ limit2 →
             decisions t2 =
             (λ p, Stdout (MsgSkipping (Py.basename p))) <$> image_paths))
    as Hdone.
  { intros u Hu Hbelow. rewrite Hrun1 in Hu. cbn in Hu. injection Hu as <-.
    assert (n1 = length image_paths) as ->.
    { destruct (decide (n1 < length image_paths)%nat) as [Hlt|]; [|lia].
      apply Hstop1 in Hlt. congruence. }
    rewrite take_ge in Hd1 by done.
    assert (∀ p, p ∈ image_paths → Py.basename p ∈ names2) as Hall.
    { intros p Hp. destruct (decide (Py.basename p ∈ names1)) as [?|Hnew].
      - by apply Hsub.
      - apply Hnow. rewrite <- uploads_decisions, Hd1, uploads_of_decisions.
        by apply list_elem_of_filter. }
    assert (filter (λ p, Py.basename p ∉ names2) image_paths = []) as Hnone.
    { apply elem_of_nil_inv. intros p [Hp Hin]%list_elem_of_filter.
      by apply Hp, Hall. }
    assert (uploads t2 = []) as Hu2'.
    { rewrite Hu2, Hnone. unfold cap, room. destruct (limit2 =? 0); [done|].
      by rewrite take_nil. }
    split; [done|]. split; [by rewrite Hrun2, Hu2'|].
    intros Hpos.
    assert (n2 = length image_paths) as ->.
    { destruct (decide (n2 < length image_paths)%nat) as [Hlt|]; [|lia].
      apply Hstop2 in Hlt. rewrite Hu2' in Hlt.
      apply limit_reached_true in Hlt. unfold Py.len in Hlt. cbn in Hlt. lia. }
    rewrite Hd2, take_ge by done. apply list_fmap_ext.
    intros i p Hp. apply decision_skip, Hall. by eapply list_elem_of_lookup_2. }
  split; [|split; [done|]].
  - intros p q Hp Hq Heq. rewrite Hu2 in Hp.
    apply elem_of_room, list_elem_of_filter in Hp as [Hp _].
    apply Hp. rewrite Heq. by apply Hnow.
  - intros ->. destruct (Hdone (Py.len (uploads t1))) as (? & ? & _); [|done..].
    by rewrite Hrun1.
Qed.

Lemma upload_rerun_witness :
  let w1 := Sample.world Sample.report [] [] in
  let w2 := Sample.world Sample.report [] ["a.png"; "b.png"] in
  let paths := ["out/a.png"; "out/b.png"] in
  uploads (trace (upload_to_drive w1 paths "F" 0)) = paths ∧
  uploads (trace (upload_to_drive w2 paths "F" 0)) = [] ∧
  result (upload_to_drive w2 paths "F" 0) = Return 0.
Proof.
  intros w1 w2 paths. split; [reflexivity|].
  destruct (upload_rerun w1 w2 paths "F" 0 0 eq_refl eq_refl) as (_ & _ & H).
  - intros f Hf. by apply not_elem_of_empty in Hf.
  - intros p Hp. apply elem_of_existing_names.
    change (p ∈ ["out/a.png"; "out/b.png"]) in Hp.
    apply elem_of_cons in Hp as [->|Hp].
    { exists {| item_name := "a.png" |}. split; [|reflexivity]. by left. }
    apply list_elem_of_singleton in Hp as ->.
    exists {| item_name := "b.png" |}. split; [|reflexivity]. right. by left.
  - by apply H.
Defined.

(** C4 as it is stated fails with a cap: the first run, capped at 1, uploads
    [a.png] only; against a listing that holds [a.png] the second run skips
    it and uploads [b.png]. *)
Lemma upload_rerun_counterexample :
  let w1 := Sample.world Sample.report [] [] in
  let w2 := Sample.world Sample.report [] ["a.png"] in
  let paths := ["out/a.png"; "out/b.png"] in
  upload_to_drive w1 paths "F" 1 =
    ([ListFolder "F"; UploadFile "out/a.png" "F"], Return 1) ∧
  (∀ p, p ∈ uploads (trace (upload_to_drive w1 paths "F" 1)) →
        Py.basename p ∈ existing_names_of (list_folder w2 "F")) ∧
  upload_to_drive w2 paths "F" 1 =
    ([ListFolder "F"; Stdout (MsgSkipping "a.png"); UploadFile "out/b.png" "F"],
     Return 1) ∧
  uploads (trace (upload_to_drive w2 paths "F" 1)) ≠ [].
Proof.
  intros w1 w2 paths. split; [reflexivity|]. split; [|split; [reflexivity|done]].
  intros p Hp. change (p ∈ ["out/a.png"]) in Hp.
  apply list_elem_of_singleton in Hp as ->. apply elem_of_existing_names.
  exists {| item_name := "a.png" |}. split; [by left|reflexivity].
Qed.

(** ** The two modes of the program *)

(** C6. In the default mode with a folder identifier, on a readable PDF and
    with an output directory that is there or can be created, the run
    extracts under [--limit] and then calls [upload_to_drive] on
    the whole extracted list with limit 0: whatever [--limit] is, every
    extracted path gets its decision (skipped or uploaded), and the paths
    uploaded are all those whose basename is not in the folder. *)
Theorem default_mode_upload_uncapped w argv args folder_id doc :
  parse_args argv = ([], Return args) →
  args_upload_only args = false →
  args_drive_folder_id args = Some folder_id → folder_id ≠ "" →
  path_exists w (args_pdf args) = true →
  fitz_installed w = true →
  makedirs_raises w (args_output_dir args) = None →
  fitz_open w (args_pdf args) = Some doc →
  gwsa_installed w = true →
  let names := existing_names_of (list_folder w folder_id) in
  ∃ t_ext image_paths t_up,
    extract_images w (args_pdf args) (args_output_dir args)
      (args_min_size args) (args_limit args) = (t_ext, Return image_paths) ∧
    image_paths =
      (file_of doc (args_output_dir args) <$>
         cap (args_limit args) (qualifying doc (args_min_size args))).*1 ∧
    upload_to_drive w image_paths folder_id 0 =
      (ListFolder folder_id :: t_up, Return (Py.len (uploads t_up))) ∧
    main w argv =
      (t_ext ++
       Stdout (MsgExtractedTotal (Py.len image_paths) (args_output_dir args)) ::
       Stdout (MsgUploading folder_id) ::
       ListFolder folder_id :: t_up ++
       [Stdout (MsgUploadedNew (Py.len (uploads t_up)))],
       Return tt) ∧
    decisions t_up = decision folder_id names <$> image_paths ∧
    uploads t_up = filter (λ p, Py.basename p ∉ names) image_paths.
Proof.
  intros Hparse Hmode Hfolder Hne Hpdf Hfitz Hdir Hopen Hgwsa names.
  destruct (extract_images_spec w (args_pdf args) (args_output_dir args)
              (args_min_size args) (args_limit args) doc)
    as (t & Hext & Hsaved & _); [done..|].
  set (t_ext := Makedirs _ :: FitzOpen _ :: t ++ [DocClose]) in Hext.
  set (image_paths := saved_paths t) in *.
  destruct (upload_to_drive_spec w image_paths folder_id 0 Hgwsa)
    as (t_up & Hup & Hu & _ & _ & n & Hn & Hd & Hstop).
  fold names in Hu, Hd.
  assert (n = length image_paths) as ->.
  { destruct (decide (n < length image_paths)%nat) as [Hlt|]; [|lia].
    by apply Hstop, limit_reached_true in Hlt as [? _]. }
  rewrite take_ge in Hd by done.
  exists t_ext, image_paths, t_up. split; [done|].
  split; [by unfold image_paths, saved_paths; rewrite Hsaved|].
  split; [done|]. split; [|done].
  rewrite (main_parsed w argv args), (run_default w args t_ext image_paths)
    by done.
  rewrite Hfolder. destruct folder_id as [|c f]; [done|].
  cbv zeta. by rewrite Hup.
Qed.

Lemma default_mode_upload_uncapped_witness :
  ∃ t_ext t_up,
    main (Sample.world Sample.report [] ["page1_img2.png"])
      [Positional "a.pdf"; OptLimit (Some 3); OptDriveFolderId (Some "F")] =
    (t_ext ++
     Stdout (MsgExtractedTotal 3 "./extracted_images") ::
     Stdout (MsgUploading "F") :: ListFolder "F" :: t_up ++
     [Stdout (MsgUploadedNew 2)], Return tt) ∧
    decisions t_up =
      [UploadFile "./extracted_images/page1_img1.png" "F";
       Stdout (MsgSkipping "page1_img2.png");
       UploadFile "./extracted_images/page3_img1.png" "F"].
Proof.
  destruct (default_mode_upload_uncapped
              (Sample.world Sample.report [] ["page1_img2.png"])
              [Positional "a.pdf"; OptLimit (Some 3); OptDriveFolderId (Some "F")]
              {| args_pdf := "a.pdf"; args_output_dir := "./extracted_images";
                 args_min_size := 100; args_limit := 3;
                 args_drive_folder_id := Some "F"; args_upload_only := false |}
              "F" Sample.report)
    as (t_ext & image_paths & t_up & Hext & Hpaths & Hup & Hmain & Hd & Hu);
    [reflexivity|reflexivity|reflexivity|discriminate|reflexivity..|].
  vm_compute in Hpaths. subst image_paths.
  assert (uploads t_up = ["./extracted_images/page1_img1.png";
                          "./extracted_images/page3_img1.png"]) as Hu'.
  { rewrite Hu. by vm_compute. }
  exists t_ext, t_up. split.
  - rewrite Hmain, Hu'. reflexivity.
  - rewrite Hd. by vm_compute.
Defined.

(** C7, as the code has it.  The positional [pdf] is required by the parser
    in every mode: a command line without it (and without [-h]) ends in a
    usage error with status 2 and nothing else happens, [--upload-only] or
    not; with [--upload-only] and a folder identifier alone the error is
    the missing [pdf].  Given any word for [pdf], existing file or not,
    [--upload-only] with a folder identifier and an existing output
    directory runs the upload phase and ends with status 0. *)
Theorem pdf_always_required w :
  (∀ argv, (∀ s, Positional s ∉ argv) → OptHelp ∉ argv →
     ∃ reason, main w argv = ([ArgparseError reason], Exit 2)) ∧
  (∀ folder_id,
     main w [OptUploadOnly; OptDriveFolderId (Some folder_id)] =
     ([ArgparseError RequiredPdf], Exit 2)) ∧
  (∀ argv args folder_id,
     parse_args argv = ([], Return args) →
     args_upload_only args = true →
     args_drive_folder_id args = Some folder_id → folder_id ≠ "" →
     path_exists w (args_output_dir args) = true →
     gwsa_installed w = true →
     let image_paths := Py.sorted (glob_png w (args_output_dir args)) in
     ∃ t_up,
       upload_to_drive w image_paths folder_id (args_limit args) =
         (ListFolder folder_id :: t_up, Return (Py.len (uploads t_up))) ∧
       main w argv =
         (Stdout (MsgFound (Py.len image_paths) (args_output_dir args)) ::
          Stdout (MsgUploading folder_id) ::
          ListFolder folder_id :: t_up ++
          [Stdout (MsgUploadedNew (Py.len (uploads t_up)))],
          Return tt) ∧
       exit_status (main w argv) = 0).
Proof.
  split; [|split].
  - intros argv Hpos Hhelp.
    destruct (parse_args_no_positional argv Hpos Hhelp) as [reason Hp].
    exists reason. by apply main_not_parsed.
  - done.
  - intros argv args folder_id Hparse Hmode Hfolder Hne Hdir Hgwsa image_paths.
    destruct (upload_to_drive_spec w image_paths folder_id (args_limit args) Hgwsa)
      as (t_up & Hup & _).
    exists t_up. split; [done|].
    assert (main w argv =
         (Stdout (MsgFound (Py.len image_paths) (args_output_dir args)) ::
          Stdout (MsgUploading folder_id) ::
          ListFolder folder_id :: t_up ++
          [Stdout (MsgUploadedNew (Py.len (uploads t_up)))],
          Return tt)) as Hmain.
    { rewrite (main_parsed w argv args), (run_upload_only w args folder_id)
        by done.
      fold image_paths. by rewrite Hup. }
    split; [done|]. by rewrite Hmain.
Qed.

Lemma pdf_always_required_witness :
  let w := Sample.world Sample.report ["out/b.png"; "out/a.png"] ["a.png"] in
  (∃ reason, main w [OptUploadOnly; OptOutputDir (Some "out");
                     OptDriveFolderId (Some "F")] =
             ([ArgparseError reason], Exit 2)) ∧
  main w [OptUploadOnly; OptOutputDir (Some "out"); OptDriveFolderId (Some "F");
          Positional "missing.pdf"] =
    ([Stdout (MsgFound 2 "out"); Stdout (MsgUploading "F"); ListFolder "F";
      Stdout (MsgSkipping "a.png"); UploadFile "out/b.png" "F";
      Stdout (MsgUploadedNew 1)], Return tt).
Proof.
  intros w. destruct (pdf_always_required w) as (H1 & _ & H3). split.
  - apply H1.
    + intros s Hin. apply list_elem_of_In in Hin. simpl in Hin.
      destruct Hin as [Hin|[Hin|[Hin|[]]]]; discriminate Hin.
    + intros Hin. apply list_elem_of_In in Hin. simpl in Hin.
      destruct Hin as [Hin|[Hin|[Hin|[]]]]; discriminate Hin.
  - destruct (H3 [OptUploadOnly; OptOutputDir (Some "out");
                  OptDriveFolderId (Some "F"); Positional "missing.pdf"]
                {| args_pdf := "missing.pdf"; args_output_dir := "out";
                   args_min_size := 100; args_limit := 0;
                   args_drive_folder_id := Some "F"; args_upload_only := true |}
                "F")
      as (t_up & Hup & Hmain & _);
      [reflexivity|reflexivity|reflexivity|discriminate|reflexivity..|].
    vm_compute in Hup. injection Hup as <-. exact Hmain.
Defined.

(** C7 as it is stated fails: with [--upload-only], a folder identifier and
    an existing output directory but no PDF path, the parser rejects the
    command line and the folder is never listed. *)
Lemma pdf_always_required_counterexample :
  let w := Sample.world Sample.report ["out/b.png"; "out/a.png"] ["a.png"] in
  let r := main w [OptUploadOnly; OptOutputDir (Some "out");
                   OptDriveFolderId (Some "F")] in
  path_exists w "out" = true ∧
  r = ([ArgparseError RequiredPdf], Exit 2) ∧
  exit_status r ≠ 0 ∧ listings (trace r) = [] ∧ uploads (trace r) = [].
Proof. intros w r. by vm_compute. Qed.

(** C8, as the code has it.  A command line with [--upload-only] and
    without [--drive-folder-id] (and without [-h]) ends with status 1 or 2
    after a single error output, and nothing is written or uploaded.  When
    the command line parses, the status is 1 and the output is the error
    about the missing folder identifier; when it does not, as when no PDF
    path is given, the status is 2 and the output is the usage error of
    the parser.  An empty folder identifier counts as none. *)
Theorem upload_only_requires_folder w :
  (∀ argv,
     OptUploadOnly ∈ argv → (∀ v, OptDriveFolderId v ∉ argv) → OptHelp ∉ argv →
     (∃ e c, main w argv = ([e], Exit c) ∧ is_error_output e = true ∧
             (c = 1 ∨ c = 2) ∧ is_write e = false) ∧
     (∀ args, result (parse_args argv) = Return args →
              main w argv = ([Stderr MsgFolderRequired], Exit 1)) ∧
     ((∀ args, result (parse_args argv) ≠ Return args) →
      ∃ reason, main w argv = ([ArgparseError reason], Exit 2)) ∧
     ((∀ s, Positional s ∉ argv) →
      ∃ reason, main w argv = ([ArgparseError reason], Exit 2))) ∧
  (∀ args,
     args_upload_only args = true →
     Py.truthy_opt_str (args_drive_folder_id args) = false →
     run w args = ([Stderr MsgFolderRequired], Exit 1)) ∧
  render MsgFolderRequired =
    "Error: --drive-folder-id required with --upload-only".
Proof.
  split; [|split; [apply run_upload_only_no_folder|done]].
  intros argv Hmode Hfolder Hhelp.
  assert ((∀ s, Positional s ∉ argv) →
          ∃ reason, main w argv = ([ArgparseError reason], Exit 2)) as Hnopdf.
  { intros Hpos.
    destruct (parse_args_no_positional argv Hpos Hhelp) as [reason Hp].
    exists reason. by apply main_not_parsed. }
  pose proof (parse_args_spec argv) as Hspec.
  destruct (parse_args argv) as [t [args|c|e]] eqn:Hparse; [| |done].
  - destruct Hspec as (-> & _ & Hnone & Hup).
    assert (main w argv = ([Stderr MsgFolderRequired], Exit 1)) as Hmain.
    { rewrite (main_parsed w argv args) by done.
      apply run_upload_only_no_folder; [by apply Hup|].
      by rewrite Hnone. }
    split; [|split; [|split; [|exact Hnopdf]]].
    + exists (Stderr MsgFolderRequired), 1. rewrite Hmain.
      split; [done|]. split; [done|]. split; [by left|done].
    + intros args' [= <-]. done.
    + intros Hnot. by destruct (Hnot args).
  - pose proof (main_not_parsed w argv t c Hparse) as Hmain.
    destruct Hspec as [(-> & reason & ->)|(_ & _ & ?)]; [|done].
    split; [|split; [done|split; [|exact Hnopdf]]].
    + exists (ArgparseError reason), 2. rewrite Hmain.
      split; [done|]. split; [done|]. split; [by right|done].
    + intros _. by exists reason.
Qed.

Lemma upload_only_requires_folder_witness :
  main (Sample.world Sample.report ["out/a.png"] [])
    [Positional "a.pdf"; OptUploadOnly] =
  ([Stderr MsgFolderRequired], Exit 1).
Proof.
  destruct (upload_only_requires_folder
              (Sample.world Sample.report ["out/a.png"] [])) as (H & _ & _).
  destruct (H [Positional "a.pdf"; OptUploadOnly]) as (_ & Hparsed & _).
  - right. by left.
  - intros v Hin. apply list_elem_of_In in Hin. simpl in Hin.
    destruct Hin as [Hin|[Hin|[]]]; discriminate Hin.
  - intros Hin. apply list_elem_of_In in Hin. simpl in Hin.
    destruct Hin as [Hin|[Hin|[]]]; discriminate Hin.
  - by apply (Hparsed {| args_pdf := "a.pdf";
                         args_output_dir := "./extracted_images";
                         args_min_size := 100; args_limit := 0;
                         args_drive_folder_id := None;
                         args_upload_only := true |}).
Defined.

(** C8 as it is stated fails on the status: with [--upload-only] alone the
    parser misses the PDF path and the program ends with status 2, not 1,
    before the test of the folder identifier is reached. *)
Lemma upload_only_requires_folder_counterexample :
  let r := main (Sample.world Sample.report ["out/a.png"] []) [OptUploadOnly] in
  r = ([ArgparseError RequiredPdf], Exit 2) ∧ exit_status r ≠ 1.
Proof. intros r. by vm_compute. Qed.

(** * Further properties of the script *)

(** ** Induction along the image loop *)

(** One case per way an iteration can go: the list is exhausted, the limit
    test breaks, the image is too small, the image is saved. *)
Lemma image_loop_ind doc output_dir min_size limit page_num
    (P : nat → list ImageEntry → list string → M (list string) → Prop) :
  (∀ img_idx extracted, P img_idx [] extracted ([], Return extracted)) →
  (∀ img_idx img images extracted,
     limit_reached limit (Py.len extracted) = true →
     P img_idx (img :: images) extracted ([], Return extracted)) →
  (∀ img_idx img images extracted r,
     limit_reached limit (Py.len extracted) = false →
     qualifies min_size (doc_pixmap doc (img_xref img)) = false →
     P (S img_idx) images extracted r →
     P img_idx (img :: images) extracted
       (NewPixmap (img_xref img) :: trace r, result r)) →
  (∀ img_idx img images extracted r,
     limit_reached limit (Py.len extracted) = false →
     qualifies min_size (doc_pixmap doc (img_xref img)) = true →
     P (S img_idx) images
       (extracted ++ [image_path output_dir page_num img_idx]) r →
     P img_idx (img :: images) extracted
       (NewPixmap (img_xref img) ::
        output_of doc output_dir (page_num, (img_idx, img)) ++ trace r,
        result r)) →
  ∀ images img_idx extracted,
    P img_idx images extracted
      (image_loop doc output_dir min_size limit page_num img_idx images
         extracted).
Proof.
  intros Hnil Hbreak Hcontinue Hsave.
  induction images as [|img images IH]; intros img_idx extracted; [apply Hnil|].
  destruct (limit_reached limit (Py.len extracted)) eqn:Hl.
  { rewrite image_loop_break by done. by apply Hbreak. }
  destruct (qualifies min_size (doc_pixmap doc (img_xref img))) eqn:Hq.
  - rewrite image_loop_save by done. cbv zeta.
    specialize (Hsave img_idx img images extracted _ Hl Hq (IH (S img_idx) _)).
    unfold output_of in Hsave. cbn [fst snd] in Hsave.
    by rewrite <- app_assoc in Hsave.
  - rewrite image_loop_continue by done. by apply Hcontinue.
Qed.

(** ** Induction along the page loop *)

Lemma page_loop_ind doc output_dir min_size limit
    (P : nat → list (list ImageEntry) → list string → M (list string) → Prop) :
  (∀ k extracted, P k [] extracted ([], Return extracted)) →
  (∀ k images pages extracted,
     limit_reached limit (Py.len extracted) = true →
     P k (images :: pages) extracted ([], Return extracted)) →
  (∀ k images pages extracted r,
     limit_reached limit (Py.len extracted) = false →
     let inner := image_loop doc output_dir min_size limit k 0 images extracted in
     P (S k) pages (extracted ++ saved_paths (trace inner)) r →
     P k (images :: pages) extracted
       (LoadPage k :: trace inner ++ trace r, result r)) →
  ∀ pages k extracted,
    (∀ i images, pages !! i = Some images →
                 doc_pages doc !! (k + i)%nat = Some images) →
    P k pages extracted
      (page_loop doc output_dir min_size limit (seq k (length pages)) extracted).
Proof.
  intros Hnil Hbreak Hstep.
  induction pages as [|images pages IH]; intros k extracted Hpages; [apply Hnil|].
  cbn [length seq].
  destruct (limit_reached limit (Py.len extracted)) eqn:Hl.
  { rewrite page_loop_break by done. by apply Hbreak. }
  assert (doc_pages doc !! k = Some images) as Hk.
  { rewrite <- (Nat.add_0_r k). by apply Hpages. }
  rewrite (page_loop_step _ _ _ _ _ _ _ images) by done. cbv zeta.
  apply Hstep; [done|]. apply IH.
  intros i imgs Hi. replace (S k + i)%nat with (k + S i)%nat by lia.
  by apply Hpages.
Qed.

Lemma len_extracted_step doc output_dir min_size limit page_num images extracted :
  let inner := image_loop doc output_dir min_size limit page_num 0 images
                 extracted in
  Py.len (extracted ++ saved_paths (trace inner)) =
  Py.len extracted +
  Py.len (room limit (Py.len extracted)
            (pair page_num <$> qualifying_from doc min_size 0 images)).
Proof.
  cbv zeta. rewrite len_app. f_equal. unfold saved_paths.
  rewrite image_loop_saved. unfold Py.len. by rewrite !length_fmap.
Qed.

(** ** What is done for the selected images *)

Lemma filter_output_of doc output_dir q :
  filter is_output (output_of doc output_dir q) = output_of doc output_dir q.
Proof. unfold output_of, conversion. by destruct (3 <? _). Qed.

Lemma filter_output_skip e t :
  is_output e = false → filter is_output (e :: t) = filter is_output t.
Proof.
  intros H. rewrite filter_cons. case_decide as He; [|done].
  by rewrite H in He.
Qed.

Lemma image_loop_output doc output_dir min_size limit page_num images :
  ∀ img_idx extracted,
    filter is_output
      (trace (image_loop doc output_dir min_size limit page_num img_idx images
                extracted)) =
    concat (output_of doc output_dir <$>
              room limit (Py.len extracted)
                (pair page_num <$> qualifying_from doc min_size img_idx images)).
Proof.
  apply (image_loop_ind doc output_dir min_size limit page_num
           (λ img_idx images extracted r,
              filter is_output (trace r) =
              concat (output_of doc output_dir <$>
                        room limit (Py.len extracted)
                          (pair page_num <$>
                             qualifying_from doc min_size img_idx images)))).
  - intros. cbn. unfold room. destruct (limit =? 0); by rewrite ?take_nil.
  - intros ???? Hl. by rewrite room_reached.
  - intros ????? Hl Hq IH. cbn [trace fst qualifying_from]. rewrite Hq.
    by rewrite filter_output_skip.
  - intros ????? Hl Hq IH. cbn [trace fst qualifying_from]. rewrite Hq.
    rewrite fmap_cons, room_cons by done. rewrite len_app in IH.
    rewrite filter_output_skip by done.
    rewrite filter_app, filter_output_of, IH. done.
Qed.

Lemma page_loop_output doc output_dir min_size limit pages : ∀ k extracted,
  (∀ i images, pages !! i = Some images →
               doc_pages doc !! (k + i)%nat = Some images) →
  filter is_output
    (trace (page_loop doc output_dir min_size limit (seq k (length pages))
              extracted)) =
  concat (output_of doc output_dir <$>
            room limit (Py.len extracted) (qualifying_pages doc min_size k pages)).
Proof.
  apply (page_loop_ind doc output_dir min_size limit
           (λ k pages extracted r,
              filter is_output (trace r) =
              concat (output_of doc output_dir <$>
                        room limit (Py.len extracted)
                          (qualifying_pages doc min_size k pages)))).
  - intros. cbn. unfold room. destruct (limit =? 0); by rewrite ?take_nil.
  - intros ???? Hl. by rewrite room_reached.
  - intros k images pages' extracted r Hl inner IH. cbn [trace fst].
    rewrite filter_output_skip by done.
    rewrite filter_app, IH. unfold inner. rewrite image_loop_output.
    cbn [qualifying_pages]. rewrite room_app, fmap_app, concat_app.
    by rewrite len_extracted_step.
Qed.

(** The conversions, saves and progress lines of a run, in order: those of
    the selected images, one after the other. *)
Lemma extract_images_output w pdf_path output_dir min_size limit doc :
  fitz_installed w = true → makedirs_raises w output_dir = None →
  fitz_open w pdf_path = Some doc →
  filter is_output (trace (extract_images w pdf_path output_dir min_size limit)) =
  concat (output_of doc output_dir <$> cap limit (qualifying doc min_size)).
Proof.
  intros H1 Hd H2.
  pose proof (page_loop_output doc output_dir min_size limit (doc_pages doc) 0 [])
    as Hout.
  unfold extract_images, os_makedirs. rewrite H1, Hd, H2.
  unfold mbind, M_bind, emit, mret, M_ret. cbn -[page_loop filter].
  pose proof (page_loop_spec doc output_dir min_size limit (doc_pages doc) 0 [])
    as (Hr & _); [done|]. cbv zeta in Hr.
  destruct (page_loop _ _ _ _ _ _) as [t o]. cbn [trace result fst snd] in *.
  subst o. cbn [trace fst]. rewrite !filter_output_skip by done.
  rewrite filter_app, Hout by done. cbn. by rewrite app_nil_r.
Qed.

(** ** Which images are selected *)

Lemma qualifying_from_elem doc min_size images : ∀ img_idx j img,
  images !! j = Some img →
  qualifies min_size (doc_pixmap doc (img_xref img)) = true →
  ((img_idx + j)%nat, img) ∈ qualifying_from doc min_size img_idx images.
Proof.
  induction images as [|img0 images IH]; intros img_idx j img Hj Hq; [done|].
  simpl. destruct j as [|j].
  - injection Hj as ->. rewrite Hq, Nat.add_0_r. by left.
  - replace (img_idx + S j)%nat with (S img_idx + j)%nat by lia.
    destruct (qualifies min_size (doc_pixmap doc (img_xref img0)));
      [right|]; by apply IH.
Qed.

Lemma qualifying_pages_elem doc min_size pages : ∀ k p images i img,
  pages !! p = Some images → images !! i = Some img →
  qualifies min_size (doc_pixmap doc (img_xref img)) = true →
  ((k + p)%nat, (i, img)) ∈ qualifying_pages doc min_size k pages.
Proof.
  induction pages as [|images0 pages IH]; intros k p images i img Hp Hi Hq;
    [done|].
  simpl. apply elem_of_app. destruct p as [|p].
  - injection Hp as ->. left. rewrite Nat.add_0_r.
    apply list_elem_of_fmap_2. by apply (qualifying_from_elem _ _ _ 0%nat).
  - right. replace (k + S p)%nat with (S k + p)%nat by lia. by eapply IH.
Qed.

(** The positions of the selected images are pairwise distinct. *)
Lemma qualifying_from_NoDup doc min_size images : ∀ img_idx,
  NoDup (qualifying_from doc min_size img_idx images).*1.
Proof.
  induction images as [|img images IH]; intros img_idx; simpl; [constructor|].
  destruct (qualifies _ _); [|apply IH]. rewrite fmap_cons.
  apply NoDup_cons. split; [|apply IH].
  intros ([i img'] & Heq & Hin)%list_elem_of_fmap. cbn in Heq. subst i.
  apply elem_of_qualifying_from in Hin as [? _]. lia.
Qed.

Lemma qualifying_pages_NoDup doc min_size pages : ∀ k,
  NoDup ((λ q, (q.1, q.2.1)) <$> qualifying_pages doc min_size k pages).
Proof.
  induction pages as [|images pages IH]; intros k; simpl; [constructor|].
  rewrite fmap_app. apply NoDup_app. split; [|split; [|apply IH]].
  - rewrite <- list_fmap_compose.
    apply (NoDup_fmap_2_strong _ (qualifying_from doc min_size 0 images)).
    + intros [i a] [j b] Hi Hj [= ->]. cbn in *.
      apply elem_of_qualifying_from in Hi as (_ & Hi & _).
      apply elem_of_qualifying_from in Hj as (_ & Hj & _). congruence.
    + eapply NoDup_fmap_1, qualifying_from_NoDup.
  - intros [p i] ([p1 [i1 a1]] & Heq & Hin)%list_elem_of_fmap
                 ([p2 [i2 a2]] & Heq' & Hin')%list_elem_of_fmap.
    cbn in Heq, Heq'. simplify_eq.
    apply list_elem_of_fmap in Hin as (? & [= <- _] & _).
    apply elem_of_qualifying_pages in Hin' as [? _]. lia.
Qed.

Lemma fmap_room {A B} (f : A → B) limit count (l : list A) :
  f <$> room limit count l = room limit count (f <$> l).
Proof. unfold room. destruct (limit =? 0); [done|apply fmap_take]. Qed.

Lemma NoDup_room {A} limit count (l : list A) :
  NoDup l → NoDup (room limit count l).
Proof.
  unfold room. destruct (limit =? 0); [done|].
  intros H. eapply sublist_NoDup; [done|apply sublist_take].
Qed.

(** X1. Without a limit, [extract_images], its output directory being
    there or created, writes every image of the document whose width and height are both at least the minimum, under
    the name of its position, and returns these paths. *)
Theorem extract_images_unlimited w pdf_path output_dir min_size doc :
  fitz_installed w = true → makedirs_raises w output_dir = None →
  fitz_open w pdf_path = Some doc →
  let r := extract_images w pdf_path output_dir min_size 0 in
  result r = Return (saved_paths (trace r)) ∧
  saved (trace r) = file_of doc output_dir <$> qualifying doc min_size ∧
  (∀ page_num images img_idx img,
     doc_pages doc !! page_num = Some images → images !! img_idx = Some img →
     min_size ≤ pix_width (doc_pixmap doc (img_xref img)) →
     min_size ≤ pix_height (doc_pixmap doc (img_xref img)) →
     (image_path output_dir page_num img_idx,
      written_pixmap (doc_pixmap doc (img_xref img))) ∈ saved (trace r)).
Proof.
  intros H1 Hd H2 r.
  assert (saved (trace r) = file_of doc output_dir <$> qualifying doc min_size)
    as Hs.
  { unfold r. by rewrite extract_images_saved, H1, Hd, H2. }
  split; [|split; [done|]].
  - destruct (extract_images_spec w pdf_path output_dir min_size 0 doc)
      as (t & Hrun & _); [done..|].
    unfold r. rewrite Hrun. cbn [trace result fst snd]. f_equal.
    change (Makedirs ?d :: FitzOpen ?p :: ?t) with ([Makedirs d; FitzOpen p] ++ t).
    rewrite !saved_paths_app. cbn. by rewrite app_nil_r.
  - intros page_num images img_idx img Hp Hi Hw Hh. rewrite Hs.
    apply (list_elem_of_fmap_2 (file_of doc output_dir)
             _ (page_num, (img_idx, img))).
    apply (qualifying_pages_elem _ _ _ 0%nat page_num images); [done..|].
    by apply qualifies_true.
Qed.

Lemma extract_images_unlimited_witness :
  let r := extract_images (Sample.world Sample.mixed [] []) "a.pdf" "out" 100 0 in
  ("out/page3_img1.png", Sample.rgb 640 480) ∈ saved (trace r).
Proof.
  intros r.
  destruct (extract_images_unlimited (Sample.world Sample.mixed [] []) "a.pdf"
              "out" 100 Sample.mixed eq_refl eq_refl eq_refl) as (_ & _ & H).
  apply (H 2%nat [Sample.entry 31; Sample.entry 32; Sample.entry 33;
                  Sample.entry 34; Sample.entry 35] 0%nat (Sample.entry 31));
    [reflexivity|reflexivity|by vm_compute..].
Defined.

(** X2. The paths written in one run of [extract_images] are pairwise
    distinct, and so are the paths it returns: no file of the run overwrites
    another. *)
Theorem extract_images_distinct_paths w pdf_path output_dir min_size limit :
  let r := extract_images w pdf_path output_dir min_size limit in
  NoDup (saved_paths (trace r)) ∧
  (∀ l, result r = Return l → NoDup l).
Proof.
  intros r.
  assert (NoDup (saved_paths (trace r))) as Hnd.
  { unfold r, saved_paths. rewrite extract_images_saved.
    destruct (fitz_installed w); [|constructor].
    destruct (makedirs_raises w output_dir); [constructor|].
    destruct (fitz_open w pdf_path) as [doc|]; [|constructor].
    rewrite <- list_fmap_compose.
    apply NoDup_fmap_2_strong.
    - intros [p [i a]] [p' [i' a']] Hin Hin' Heq. cbn in Heq.
      apply image_path_inj in Heq as [-> ->].
      apply elem_of_room, elem_of_qualifying in Hin as (? & ? & ? & _).
      apply elem_of_room, elem_of_qualifying in Hin' as (? & ? & ? & _).
      repeat f_equal. congruence.
    - apply NoDup_room. eapply NoDup_fmap_1, qualifying_pages_NoDup. }
  split; [done|]. by intros l ->%extract_images_returns.
Qed.

(** X3. A positive limit [L] only cuts the run short: what
    [extract_images] writes with limit [L] is the first [L] files of what
    it writes without limit, so it writes [min L n] files when [n] images
    qualify. *)
Theorem extract_images_limit_prefix w pdf_path output_dir min_size L :
  0 < L →
  let limited := extract_images w pdf_path output_dir min_size L in
  let unlimited := extract_images w pdf_path output_dir min_size 0 in
  saved (trace limited) = take (Z.to_nat L) (saved (trace unlimited)) ∧
  Py.len (saved (trace limited)) = Z.min L (Py.len (saved (trace unlimited))).
Proof.
  intros HL limited unlimited.
  assert (saved (trace limited) = take (Z.to_nat L) (saved (trace unlimited)))
    as Hs.
  { unfold limited, unlimited. rewrite !extract_images_saved.
    destruct (fitz_installed w); [|by rewrite take_nil].
    destruct (makedirs_raises w output_dir); [by rewrite take_nil|].
    destruct (fitz_open w pdf_path) as [doc|]; [|by rewrite take_nil].
    unfold cap, room. destruct (Z.eqb_spec L 0); [lia|].
    rewrite Z.sub_0_r. cbn. by rewrite fmap_take. }
  split; [done|]. rewrite Hs. unfold Py.len. rewrite length_take. lia.
Qed.

Lemma extract_images_limit_prefix_witness :
  saved_paths (trace (extract_images (Sample.world Sample.mixed [] []) "a.pdf"
                        "out" 100 2)) =
  take 2 (saved_paths (trace (extract_images (Sample.world Sample.mixed [] [])
                                "a.pdf" "out" 100 0))).
Proof.
  destruct (extract_images_limit_prefix (Sample.world Sample.mixed [] [])
              "a.pdf" "out" 100 2) as [H _]; [lia|].
  unfold saved_paths. rewrite H. by rewrite fmap_take.
Defined.

(** ** Readings of the output events *)

Lemma filter_output_cons e t :
  filter is_output (e :: t) =
  if is_output e then e :: filter is_output t else filter is_output t.
Proof. rewrite filter_cons. destruct (is_output e); by case_decide. Qed.

Lemma converted_filter_output t : converted (filter is_output t) = converted t.
Proof.
  induction t as [|e t IH]; [done|]. rewrite filter_output_cons.
  destruct e as [| | | | | | | | |[]| | |]; cbn -[filter]; try done.
  f_equal. apply IH.
Qed.

Lemma converted_output_of doc output_dir q :
  converted (output_of doc output_dir q) =
  if 3 <? colour_channels (doc_pixmap doc (img_xref q.2.2))
  then [img_xref q.2.2] else [].
Proof.
  unfold output_of, conversion, colour_channels. by destruct (3 <? _).
Qed.

Lemma converted_app t1 t2 : converted (t1 ++ t2) = converted t1 ++ converted t2.
Proof. apply omap_app. Qed.

(** X4. On a readable PDF, its output directory being there or created,
    [extract_images] converts to RGB exactly the images it goes on to
    save that have more than three colour channels, in the order it saves
    them: an image rejected by the size test is never converted, nor is
    one left out by the limit. *)
Theorem extract_images_conversions w pdf_path output_dir min_size limit doc :
  fitz_installed w = true → makedirs_raises w output_dir = None →
  fitz_open w pdf_path = Some doc →
  converted (trace (extract_images w pdf_path output_dir min_size limit)) =
  img_xref <$>
    filter (λ img, 3 < colour_channels (doc_pixmap doc (img_xref img)))
      (cap limit (qualifying doc min_size)).*2.*2.
Proof.
  intros H1 Hd H2.
  rewrite <- converted_filter_output, (extract_images_output _ _ _ _ _ doc)
    by done.
  induction (cap limit (qualifying doc min_size)) as [|q l IH]; [done|].
  rewrite !fmap_cons, concat_cons, converted_app, converted_output_of, IH.
  rewrite filter_cons. destruct (Z.ltb_spec 3
    (colour_channels (doc_pixmap doc (img_xref q.2.2)))); case_decide;
    try lia; done.
Qed.

Lemma extract_images_conversions_witness :
  converted (trace (extract_images (Sample.world Sample.mixed [] []) "a.pdf"
                      "out" 100 0)) = [31].
Proof.
  rewrite (extract_images_conversions (Sample.world Sample.mixed [] []) "a.pdf"
             "out" 100 0 Sample.mixed eq_refl eq_refl eq_refl).
  by vm_compute.
Defined.

(** ** The progress lines of the extraction *)

Lemma stdout_lines_app t1 t2 :
  stdout_lines (t1 ++ t2) = stdout_lines t1 ++ stdout_lines t2.
Proof. apply omap_app. Qed.

Lemma output_of_lines doc output_dir q :
  stdout_lines (output_of doc output_dir q) =
  extracted_line <$> saved (output_of doc output_dir q).
Proof.
  unfold output_of, conversion, extracted_line, written_pixmap.
  by destruct (3 <? _).
Qed.

Lemma image_loop_lines doc output_dir min_size limit page_num images :
  ∀ img_idx extracted,
    let t := trace (image_loop doc output_dir min_size limit page_num img_idx
                      images extracted) in
    stdout_lines t = extracted_line <$> saved t.
Proof.
  apply (image_loop_ind doc output_dir min_size limit page_num
           (λ _ _ _ r, stdout_lines (trace r) = extracted_line <$> saved (trace r)));
    try done.
  intros img_idx img images' extracted r _ _ IH. cbn [trace fst].
  change (NewPixmap ?x :: ?o ++ ?t) with ([NewPixmap x] ++ o ++ t).
  rewrite !stdout_lines_app, !saved_app, !fmap_app, output_of_lines, IH. done.
Qed.

Lemma page_loop_lines doc output_dir min_size limit pages : ∀ k extracted,
  (∀ i images, pages !! i = Some images →
               doc_pages doc !! (k + i)%nat = Some images) →
  let t := trace (page_loop doc output_dir min_size limit
                    (seq k (length pages)) extracted) in
  stdout_lines t = extracted_line <$> saved t.
Proof.
  apply (page_loop_ind doc output_dir min_size limit
           (λ _ _ _ r, stdout_lines (trace r) = extracted_line <$> saved (trace r)));
    try done.
  intros k images pages' extracted r _ inner IH. cbn [trace fst].
  change (LoadPage ?x :: ?o ++ ?t) with ([LoadPage x] ++ o ++ t).
  rewrite !stdout_lines_app, !saved_app, !fmap_app, IH.
  unfold inner. by rewrite image_loop_lines.
Qed.

(** X5. [extract_images] prints one line per file it writes, in the order
    of the files, with the path and with the width and height of the
    pixmap written, and prints nothing else on standard output. *)
Theorem extract_images_progress_lines w pdf_path output_dir min_size limit :
  let t := trace (extract_images w pdf_path output_dir min_size limit) in
  stdout_lines t = extracted_line <$> saved t.
Proof.
  cbv zeta. unfold extract_images, os_makedirs.
  destruct (fitz_installed w); [|done].
  destruct (makedirs_raises w output_dir); [done|].
  destruct (fitz_open w pdf_path) as [doc|]; [|done].
  pose proof (page_loop_lines doc output_dir min_size limit (doc_pages doc) 0 [])
    as Hl.
  pose proof (page_loop_spec doc output_dir min_size limit (doc_pages doc) 0 [])
    as (Hr & _); [done|]. cbv zeta in Hr, Hl.
  unfold mbind, M_bind, emit, mret, M_ret. cbn -[page_loop].
  destruct (page_loop _ _ _ _ _ _) as [t o]. cbn [trace result fst snd] in *.
  subst o. cbn [trace fst].
  change (Makedirs ?d :: FitzOpen ?p :: ?t) with ([Makedirs d; FitzOpen p] ++ t).
  rewrite !stdout_lines_app, !saved_app, !fmap_app, Hl by done.
  cbn. by rewrite !app_nil_r.
Qed.

(** ** The order of the traversal *)

Lemma resolved_app t1 t2 : resolved (t1 ++ t2) = resolved t1 ++ resolved t2.
Proof. apply omap_app. Qed.

Lemma loaded_pages_app t1 t2 :
  loaded_pages (t1 ++ t2) = loaded_pages t1 ++ loaded_pages t2.
Proof. apply omap_app. Qed.

Lemma output_of_quiet doc output_dir q :
  resolved (output_of doc output_dir q) = [] ∧
  loaded_pages (output_of doc output_dir q) = [] ∧
  Py.len (saved (output_of doc output_dir q)) = 1.
Proof. unfold output_of, conversion. by destruct (3 <? _). Qed.

(** The image loop resolves the entries of a prefix of the page, in order,
    and leaves the rest only with the limit reached. *)
Lemma image_loop_resolved doc output_dir min_size limit page_num images :
  ∀ img_idx extracted,
    let t := trace (image_loop doc output_dir min_size limit page_num img_idx
                      images extracted) in
    loaded_pages t = [] ∧
    ∃ n, (n ≤ length images)%nat ∧
      resolved t = img_xref <$> take n images ∧
      ((n < length images)%nat →
       limit_reached limit (Py.len extracted + Py.len (saved t)) = true).
Proof.
  apply (image_loop_ind doc output_dir min_size limit page_num
           (λ _ images extracted r,
              loaded_pages (trace r) = [] ∧
              ∃ n, (n ≤ length images)%nat ∧
                resolved (trace r) = img_xref <$> take n images ∧
                ((n < length images)%nat →
                 limit_reached limit
                   (Py.len extracted + Py.len (saved (trace r))) = true))).
  - intros. split; [done|]. exists 0%nat. split; [done|]. split; [done|].
    cbn. lia.
  - intros ???? Hl. split; [done|]. exists 0%nat. split; [cbn; lia|].
    split; [done|]. intros _. cbn. by rewrite Z.add_0_r.
  - intros ????? _ _ (IH0 & n & Hn & IH1 & IH2). cbn [trace fst].
    split; [done|]. exists (S n). split; [cbn; lia|]. split.
    + cbn. f_equal. apply IH1.
    + intros Hlt. apply IH2. cbn in Hlt. lia.
  - intros img_idx img images' extracted r _ _ (IH0 & n & Hn & IH1 & IH2).
    cbn [trace fst].
    destruct (output_of_quiet doc output_dir (page_num, (img_idx, img)))
      as (Q1 & Q2 & Q3).
    change (NewPixmap ?x :: ?o ++ ?t) with ([NewPixmap x] ++ o ++ t).
    rewrite !loaded_pages_app, !resolved_app, !saved_app, Q1, Q2, IH0, IH1.
    split; [done|]. exists (S n). split; [cbn; lia|]. split; [done|].
    intros Hlt. rewrite !len_app, Q3. rewrite len_app in IH2.
    replace (Py.len extracted + (Py.len (saved [NewPixmap (img_xref img)]) +
              (1 + Py.len (saved (trace r)))))
      with (Py.len extracted + Py.len [image_path output_dir page_num img_idx] +
              Py.len (saved (trace r))) by (unfold Py.len; cbn; lia).
    apply IH2. cbn in Hlt. lia.
Qed.

Lemma page_loop_resolved doc output_dir min_size limit pages : ∀ k extracted,
  (∀ i images, pages !! i = Some images →
               doc_pages doc !! (k + i)%nat = Some images) →
  let t := trace (page_loop doc output_dir min_size limit
                    (seq k (length pages)) extracted) in
  (limit_reached limit (Py.len extracted) = true → t = []) ∧
  ∃ j n, (j ≤ length pages)%nat ∧
    loaded_pages t = seq k j ∧
    resolved t = img_xref <$> take n (concat pages) ∧
    (limit = 0 → j = length pages ∧ n = length (concat pages)).
Proof.
  apply (page_loop_ind doc output_dir min_size limit
           (λ k pages extracted r,
              (limit_reached limit (Py.len extracted) = true → trace r = []) ∧
              ∃ j n, (j ≤ length pages)%nat ∧
                loaded_pages (trace r) = seq k j ∧
                resolved (trace r) = img_xref <$> take n (concat pages) ∧
                (limit = 0 → j = length pages ∧ n = length (concat pages)))).
  - intros. split; [done|]. by exists 0%nat, 0%nat.
  - intros k images pages' extracted Hl. split; [done|].
    exists 0%nat, 0%nat. split; [cbn; lia|]. split; [done|]. split; [done|].
    intros ->. by apply limit_reached_true in Hl as [? _].
  - intros k images pages' extracted r Hl inner (IHstop & j & n & Hj & IHp & IHr & IH0).
    split; [by rewrite Hl|]. cbn [trace fst].
    destruct (image_loop_resolved doc output_dir min_size limit k images
                0%nat extracted) as (Hp & n1 & Hn1 & Hr1 & Hstop1).
    fold inner in Hp, Hr1, Hstop1.
    assert (Py.len (extracted ++ saved_paths (trace inner)) =
            Py.len extracted + Py.len (saved (trace inner))) as Hlen.
    { rewrite len_app. unfold saved_paths, Py.len. by rewrite length_fmap. }
    change (LoadPage ?x :: ?o ++ ?t) with ([LoadPage x] ++ o ++ t).
    rewrite !loaded_pages_app, !resolved_app, Hp, Hr1.
    destruct (decide (n1 < length images)%nat) as [Hlt|Hge].
    + specialize (Hstop1 Hlt). rewrite <- Hlen in Hstop1.
      rewrite (IHstop Hstop1). exists 1%nat, n1.
      split; [cbn; lia|]. split; [done|]. split.
      * cbn [concat resolved omap app]. rewrite app_nil_r.
        by rewrite take_app_le by lia.
      * intros ->. by apply limit_reached_true in Hstop1 as [? _].
    + rewrite take_ge in * by lia. rewrite IHp, IHr.
      exists (S j), (length images + n)%nat.
      split; [cbn; lia|]. split; [done|]. split.
      * cbn [concat resolved omap app]. by rewrite take_app_add, fmap_app.
      * intros H0. destruct (IH0 H0) as [-> ->]. cbn [concat length].
        by rewrite length_app.
Qed.

(** X6. On a readable PDF, its output directory being there or created,
    [extract_images] reads the pages in order from the first, and
    resolves the pixmaps of the image entries in document order, each entry
    once, the rejected ones too; it stops somewhere in that order, and
    without a limit it reads every page and resolves every entry. *)
Theorem extract_images_traversal w pdf_path output_dir min_size limit doc :
  fitz_installed w = true → makedirs_raises w output_dir = None →
  fitz_open w pdf_path = Some doc →
  let t := trace (extract_images w pdf_path output_dir min_size limit) in
  ∃ j n, (j ≤ length (doc_pages doc))%nat ∧
    loaded_pages t = seq 0 j ∧
    resolved t = img_xref <$> take n (all_images doc) ∧
    (limit = 0 → loaded_pages t = seq 0 (length (doc_pages doc)) ∧
                 resolved t = img_xref <$> all_images doc).
Proof.
  intros H1 Hd H2. cbv zeta.
  destruct (page_loop_resolved doc output_dir min_size limit (doc_pages doc) 0 [])
    as (_ & j & n & Hj & Hp & Hr & H0); [done|].
  pose proof (page_loop_spec doc output_dir min_size limit (doc_pages doc) 0 [])
    as (Hres & _); [done|]. cbv zeta in Hres, Hp, Hr.
  unfold extract_images, os_makedirs. rewrite H1, Hd, H2.
  unfold mbind, M_bind, emit, mret, M_ret. cbn -[page_loop].
  destruct (page_loop _ _ _ _ _ _) as [t o]. cbn [trace result fst snd] in *.
  subst o. cbn [trace fst].
  change (Makedirs ?d :: FitzOpen ?p :: ?t) with ([Makedirs d; FitzOpen p] ++ t).
  rewrite !loaded_pages_app, !resolved_app, Hp, Hr. cbn. rewrite !app_nil_r.
  exists j, n. split; [done|]. split; [done|]. split; [done|].
  intros Hl. destruct (H0 Hl) as [-> ->]. unfold all_images.
  by rewrite take_ge.
Qed.

Lemma extract_images_traversal_witness :
  let t := trace (extract_images (Sample.world Sample.mixed [] []) "a.pdf"
                    "out" 100 0) in
  loaded_pages t = [0; 1; 2]%nat ∧ resolved t = [11; 12; 31; 32; 33; 34; 35].
Proof.
  destruct (extract_images_traversal (Sample.world Sample.mixed [] []) "a.pdf"
              "out" 100 0 Sample.mixed eq_refl eq_refl eq_refl)
    as (j & n & _ & _ & _ & H).
  by apply H.
Defined.

(** ** The upload loop *)

Lemma progress_app t1 t2 : progress (t1 ++ t2) = progress t1 ++ progress t2.
Proof. apply omap_app. Qed.

Lemma progress_milestone uploaded :
  progress (milestone uploaded) =
  filter (λ u, u `mod` 20 = 0) [uploaded].
Proof.
  unfold milestone. rewrite filter_cons.
  destruct (Z.eqb_spec (uploaded `mod` 20) 0); by case_decide.
Qed.

(** Started with the counter at [uploaded], the loop prints the counter
    values that are multiples of 20 among those it reaches. *)
Lemma upload_loop_progress folder_id names limit paths : ∀ uploaded,
  let t := trace (upload_loop folder_id names limit paths uploaded) in
  progress t =
  filter (λ u, u `mod` 20 = 0) (seqZ (uploaded + 1) (Py.len (uploads t))).
Proof.
  induction paths as [|path paths IH]; intros uploaded; [done|]. cbv zeta.
  destruct (limit_reached limit uploaded) eqn:Hl.
  { by rewrite upload_loop_break. }
  destruct (decide (Py.basename path ∈ names)) as [Hin|Hin].
  - rewrite upload_loop_skip by done. cbn [trace fst]. apply IH.
  - rewrite upload_loop_upload by done. cbn [trace fst].
    destruct (milestone_quiet (uploaded + 1)) as (M1 & _).
    change (UploadFile ?p ?f :: ?m ++ ?t) with ([UploadFile p f] ++ m ++ t).
    rewrite !progress_app, !uploads_app, M1, progress_milestone, IH.
    change (progress [UploadFile path folder_id]) with (@nil Z).
    change (uploads [UploadFile path folder_id]) with [path].
    rewrite !app_nil_l, len_app. set (n := Py.len (uploads _)).
    assert (0 ≤ n) as Hn by apply len_nonneg.
    replace (Py.len [path] + n) with (Z.succ n) by (unfold Py.len; cbn; lia).
    rewrite (seqZ_cons (uploaded + 1)) by lia.
    rewrite Z.pred_succ, (filter_cons _ (uploaded + 1)), (filter_cons _ (uploaded + 1)).
    replace (Z.succ (uploaded + 1)) with (uploaded + 1 + 1) by lia.
    by case_decide.
Qed.

Lemma cons_split {A} (e x : A) (t t1 t2 : list A) :
  e :: t = t1 ++ x :: t2 →
  (t1 = [] ∧ e = x ∧ t = t2) ∨ (∃ t1', t1 = e :: t1' ∧ t = t1' ++ x :: t2).
Proof.
  destruct t1 as [|e' t1']; cbn; intros H; injection H as -> ->.
  - by left.
  - right. by exists t1'.
Qed.

(** Where the progress lines stand in the trace of the loop started with
    the counter at [uploaded]: each one directly follows an upload and
    shows the number of uploads so far, a multiple of 20; and each upload
    that brings the counter to a multiple of 20 is directly followed by
    its line. *)
Lemma upload_loop_progress_after folder_id names limit paths : ∀ uploaded,
  let t := trace (upload_loop folder_id names limit paths uploaded) in
  (∀ t1 u t2,
     t = t1 ++ Stdout (MsgUploadedSoFar u) :: t2 →
     u = uploaded + Py.len (uploads t1) ∧ u `mod` 20 = 0 ∧
     ∃ t0 p, t1 = t0 ++ [UploadFile p folder_id]) ∧
  (∀ t1 p f t2,
     t = t1 ++ UploadFile p f :: t2 →
     (uploaded + Py.len (uploads t1) + 1) `mod` 20 = 0 →
     ∃ t3, t2 = Stdout (MsgUploadedSoFar (uploaded + Py.len (uploads t1) + 1))
                  :: t3).
Proof.
  induction paths as [|path paths IH]; intros uploaded; cbv zeta.
  { split; intros t1 ?; intros; by destruct t1. }
  destruct (limit_reached limit uploaded) eqn:Hl.
  { rewrite upload_loop_break by done.
    split; intros t1 ?; intros; by destruct t1. }
  destruct (decide (Py.basename path ∈ names)) as [Hin|Hin].
  - rewrite upload_loop_skip by done. cbn [trace fst].
    destruct (IH uploaded) as [IHa IHb]. split.
    + intros t1 u t2 [(_ & [=] & _)|(t1' & -> & Ht)]%cons_split.
      destruct (IHa _ _ _ Ht) as (Hu & Hm & t0 & p & ->).
      split; [done|]. split; [done|].
      by exists (Stdout (MsgSkipping (Py.basename path)) :: t0), p.
    + intros t1 p f t2 [(_ & [=] & _)|(t1' & -> & Ht)]%cons_split.
      apply (IHb _ _ _ _ Ht).
  - rewrite upload_loop_upload by done. cbn [trace fst].
    destruct (IH (uploaded + 1)) as [IHa IHb].
    assert (∀ t1', Py.len (uploads (UploadFile path folder_id :: t1')) =
                   1 + Py.len (uploads t1')) as Hlen.
    { intros t1'. change (uploads (UploadFile path folder_id :: t1'))
        with (path :: uploads t1'). unfold Py.len. cbn [length]. lia. }
    unfold milestone. destruct (Z.eqb_spec ((uploaded + 1) `mod` 20) 0) as [Hm|Hm];
      cbn [app]; split.
    + intros t1 u t2 [(_ & [=] & _)|(t1' & -> & Ht)]%cons_split.
      apply cons_split in Ht as [(-> & [= <-] & _)|(t1'' & -> & Ht)].
      * split; [unfold Py.len; cbn; lia|]. split; [done|].
        by exists [], path.
      * destruct (IHa _ _ _ Ht) as (Hu & Hm' & t0 & p & ->).
        rewrite Hlen.
        change (uploads (Stdout ?m :: ?r)) with (uploads r).
        split; [lia|]. split; [done|].
        by exists (UploadFile path folder_id
                     :: Stdout (MsgUploadedSoFar (uploaded + 1)) :: t0), p.
    + intros t1 p f t2 [(-> & _ & <-)|(t1' & -> & Ht)]%cons_split.
      * intros _. exists (trace (upload_loop folder_id names limit paths
                                   (uploaded + 1))).
        do 3 f_equal. unfold Py.len. cbn. lia.
      * apply cons_split in Ht as [(_ & [=] & _)|(t1'' & -> & Ht)].
        rewrite Hlen.
        change (uploads (Stdout ?m :: ?r)) with (uploads r).
        replace (uploaded + (1 + Py.len (uploads t1'')) + 1)
          with (uploaded + 1 + Py.len (uploads t1'') + 1) by lia.
        apply (IHb _ _ _ _ Ht).
    + intros t1 u t2 [(_ & [=] & _)|(t1' & -> & Ht)]%cons_split.
      destruct (IHa _ _ _ Ht) as (Hu & Hm' & t0 & p & ->).
      rewrite Hlen. split; [lia|]. split; [done|].
      by exists (UploadFile path folder_id :: t0), p.
    + intros t1 p f t2 [(-> & _ & <-)|(t1' & -> & Ht)]%cons_split.
      * intros Hz. exfalso. apply Hm. rewrite <- Hz. f_equal.
        unfold Py.len. cbn. lia.
      * rewrite Hlen.
        replace (uploaded + (1 + Py.len (uploads t1')) + 1)
          with (uploaded + 1 + Py.len (uploads t1') + 1) by lia.
        apply (IHb _ _ _ _ Ht).
Qed.

(** X7. [upload_to_drive] prints a progress line exactly after the 20th,
    40th, 60th ... upload of the run.  The counters shown are the multiples
    of 20 from 1 up to the number of files uploaded; every progress line
    stands directly after a call of [upload_file] and shows the number of
    uploads made so far, a multiple of 20; and every upload that brings
    that number to a multiple of 20 is directly followed by its line. *)
Theorem upload_progress_every_20 w image_paths folder_id limit :
  gwsa_installed w = true →
  ∃ t,
    upload_to_drive w image_paths folder_id limit =
      (t, Return (Py.len (uploads t))) ∧
    progress t =
      filter (λ u, u `mod` 20 = 0) (seqZ 1 (Py.len (uploads t))) ∧
    (∀ t1 u t2,
       t = t1 ++ Stdout (MsgUploadedSoFar u) :: t2 →
       u = Py.len (uploads t1) ∧ 0 < u ∧ u `mod` 20 = 0 ∧
       ∃ t0 p, t1 = t0 ++ [UploadFile p folder_id]) ∧
    (∀ t1 p f t2,
       t = t1 ++ UploadFile p f :: t2 →
       (Py.len (uploads t1) + 1) `mod` 20 = 0 →
       ∃ t3, t2 = Stdout (MsgUploadedSoFar (Py.len (uploads t1) + 1)) :: t3).
Proof.
  intros H.
  pose proof (upload_loop_progress folder_id
                (existing_names_of (list_folder w folder_id)) limit
                image_paths 0) as Hp.
  destruct (upload_loop_progress_after folder_id
              (existing_names_of (list_folder w folder_id)) limit
              image_paths 0) as [Ha Hb].
  destruct (upload_loop_spec folder_id
              (existing_names_of (list_folder w folder_id)) limit image_paths 0)
    as (Hr & _).
  cbv zeta in Hp, Hr. unfold upload_to_drive. rewrite H.
  unfold mbind, M_bind, emit, mret, M_ret. cbn -[upload_loop].
  destruct (upload_loop _ _ _ _ _) as [t o]. cbn [trace result fst snd] in *.
  subst o. exists (ListFolder folder_id :: t). split; [done|].
  split; [apply Hp|]. split.
  - intros t1 u t2 [(_ & [=] & _)|(t1' & -> & Ht)]%cons_split.
    change (uploads (ListFolder ?f :: ?r)) with (uploads r).
    destruct (Ha _ _ _ Ht) as (Hu & Hm & t0 & p & ->).
    split; [lia|]. split.
    { rewrite Hu, uploads_app, len_app.
      pose proof (len_nonneg (uploads t0)). unfold Py.len at 2. cbn. lia. }
    split; [done|]. by exists (ListFolder folder_id :: t0), p.
  - intros t1 p f t2 [(_ & [=] & _)|(t1' & -> & Ht)]%cons_split.
    change (uploads (ListFolder ?f :: ?r)) with (uploads r).
    intros Hz. destruct (Hb _ _ _ _ Ht) as (t3 & ->); [by rewrite Z.add_0_l|].
    rewrite Z.add_0_l. by eexists.
Qed.

Lemma upload_progress_every_20_witness :
  progress (trace (upload_to_drive (Sample.world Sample.report [] [])
                     (replicate 45 "out/a.png") "F" 0)) = [20; 40].
Proof.
  destruct (upload_progress_every_20 (Sample.world Sample.report [] [])
              (replicate 45 "out/a.png") "F" 0 eq_refl) as (t & Hrun & Hp & _).
  rewrite Hrun. cbn [trace fst]. rewrite Hp.
  assert (Py.len (uploads t) = 45) as ->.
  { apply (f_equal result) in Hrun. vm_compute in Hrun. by injection Hrun. }
  by vm_compute.
Defined.

(** X8. [upload_to_drive] returns the number of files it uploaded: all the
    paths whose basename is not in the folder when there is no cap, and
    the smaller of the cap and that number under a positive cap; paths
    that are skipped do not use up the cap. *)
Theorem upload_count w image_paths folder_id limit :
  gwsa_installed w = true →
  let names := existing_names_of (list_folder w folder_id) in
  let new := filter (λ p, Py.basename p ∉ names) image_paths in
  ∃ t uploaded,
    upload_to_drive w image_paths folder_id limit = (t, Return uploaded) ∧
    uploaded = Py.len (uploads t) ∧
    (limit = 0 → uploads t = new ∧ uploaded = Py.len new) ∧
    (0 < limit → uploads t = take (Z.to_nat limit) new ∧
                 uploaded = Z.min limit (Py.len new)).
Proof.
  intros H names new.
  destruct (upload_to_drive_spec w image_paths folder_id limit H)
    as (t & Hrun & Hu & _).
  fold names in Hu. fold new in Hu.
  exists (ListFolder folder_id :: t), (Py.len (uploads t)).
  change (uploads (ListFolder folder_id :: t)) with (uploads t).
  split; [done|]. split; [done|]. rewrite Hu. unfold cap, room. split.
  - by intros ->.
  - intros Hpos. destruct (Z.eqb_spec limit 0); [lia|]. rewrite Z.sub_0_r.
    split; [done|]. unfold Py.len. rewrite length_take. lia.
Qed.

Lemma upload_count_witness :
  result (upload_to_drive (Sample.world Sample.report [] ["b.png"])
            ["out/a.png"; "out/b.png"; "out/c.png"; "out/d.png"] "F" 2) =
  Return 2.
Proof.
  destruct (upload_count (Sample.world Sample.report [] ["b.png"])
              ["out/a.png"; "out/b.png"; "out/c.png"; "out/d.png"] "F" 2 eq_refl)
    as (t & u & Hrun & _ & _ & Hcap).
  destruct Hcap as [_ ->]; [lia|]. rewrite Hrun. by vm_compute.
Defined.

Lemma filter_no_names (names : gset string) (l : list string) :
  names = ∅ → filter (λ p, Py.basename p ∉ names) l = l.
Proof.
  intros Hnames. induction l as [|p l IH]; [done|].
  rewrite filter_cons_True by (rewrite Hnames; apply not_elem_of_empty).
  by rewrite IH.
Qed.

(** X9. When the listing returned by [list_folder] has no ["items"] key,
    the folder counts as empty: nothing is skipped and every path is
    uploaded, as far as the cap allows. *)
Theorem upload_without_items w image_paths folder_id limit :
  gwsa_installed w = true →
  listing_items (list_folder w folder_id) = None →
  ∃ t,
    upload_to_drive w image_paths folder_id limit =
      (t, Return (Py.len (uploads t))) ∧
    uploads t = cap limit image_paths ∧
    Forall (λ e, ∀ f, e ≠ Stdout (MsgSkipping f)) t.
Proof.
  intros H Hitems.
  destruct (upload_to_drive_spec w image_paths folder_id limit H)
    as (t & Hrun & Hu & _ & _ & n & _ & Hd & _).
  assert (existing_names_of (list_folder w folder_id) = ∅) as Hnames.
  { unfold existing_names_of. by rewrite Hitems. }
  rewrite filter_no_names in Hu by done. rewrite Hnames in Hd.
  exists (ListFolder folder_id :: t). split; [done|]. split; [done|].
  apply Forall_cons. split; [done|].
  apply Forall_forall. intros e He f ->.
  assert (Stdout (MsgSkipping f) ∈ decisions t) as Hin.
  { unfold decisions. by apply list_elem_of_filter. }
  rewrite Hd in Hin. apply list_elem_of_fmap in Hin as (p & Heq & _).
  unfold decision in Heq. rewrite bool_decide_eq_false_2 in Heq; [done|].
  apply not_elem_of_empty.
Qed.

Lemma upload_without_items_witness :
  let w := {| fitz_installed := true; gwsa_installed := true;
              path_exists := λ _, true; makedirs_error := λ _, None;
              fitz_open := λ _, None;
              glob_png := λ _, []; list_folder := λ _, {| listing_items := None |} |} in
  ∃ t, upload_to_drive w ["out/a.png"; "out/b.png"] "F" 0 =
         (t, Return (Py.len (uploads t))) ∧
       uploads t = ["out/a.png"; "out/b.png"].
Proof.
  intros w.
  destruct (upload_without_items w ["out/a.png"; "out/b.png"] "F" 0
              eq_refl eq_refl) as (t & Hrun & Hu & _).
  exists t. by split.
Defined.

(** ** The two phases keep apart *)

Lemma output_of_local doc output_dir q :
  Forall (λ e, is_remote e = false) (output_of doc output_dir q).
Proof. unfold output_of, conversion. destruct (3 <? _); by repeat constructor. Qed.

Lemma image_loop_local doc output_dir min_size limit page_num images :
  ∀ img_idx extracted,
    Forall (λ e, is_remote e = false)
      (trace (image_loop doc output_dir min_size limit page_num img_idx images
                extracted)).
Proof.
  apply (image_loop_ind doc output_dir min_size limit page_num
           (λ _ _ _ r, Forall (λ e, is_remote e = false) (trace r)));
    try by constructor.
  intros img_idx img images' extracted r _ _ IH. cbn [trace fst].
  constructor; [done|]. apply Forall_app. split; [apply output_of_local|done].
Qed.

(** [extract_images] never lists the folder and never uploads. *)
Lemma extract_images_local w pdf_path output_dir min_size limit :
  Forall (λ e, is_remote e = false)
    (trace (extract_images w pdf_path output_dir min_size limit)).
Proof.
  unfold extract_images, os_makedirs.
  destruct (fitz_installed w); [|by repeat constructor].
  destruct (makedirs_raises w output_dir); [by repeat constructor|].
  destruct (fitz_open w pdf_path) as [doc|]; [|by repeat constructor].
  assert (Forall (λ e, is_remote e = false)
            (trace (page_loop doc output_dir min_size limit
                      (seq 0 (length (doc_pages doc))) []))) as Hl.
  { apply (page_loop_ind doc output_dir min_size limit
             (λ _ _ _ r, Forall (λ e, is_remote e = false) (trace r)));
      try done; try by constructor.
    intros k images pages' extracted r _ inner IH. cbn [trace fst].
    constructor; [done|]. apply Forall_app. split; [|done].
    apply image_loop_local. }
  pose proof (page_loop_spec doc output_dir min_size limit (doc_pages doc) 0 [])
    as (Hr & _); [done|]. cbv zeta in Hr.
  unfold mbind, M_bind, emit, mret, M_ret. cbn -[page_loop].
  destruct (page_loop _ _ _ _ _ _) as [t o]. cbn [trace result fst snd] in *.
  subst o. cbn [trace fst]. do 2 (constructor; [done|]).
  apply Forall_app. split; [done|]. by repeat constructor.
Qed.

Lemma no_remote_uploads t :
  Forall (λ e, is_remote e = false) t → uploads t = [] ∧ listings t = [].
Proof.
  induction 1 as [|e t He _ [IH1 IH2]]; [done|].
  destruct e; try done; cbn; by rewrite ?IH1, ?IH2.
Qed.

(** [upload_to_drive] never touches PyMuPDF or the local disk. *)
Lemma upload_to_drive_remote w image_paths folder_id limit :
  Forall (λ e, is_local e = false)
    (trace (upload_to_drive w image_paths folder_id limit)).
Proof.
  unfold upload_to_drive. destruct (gwsa_installed w); [|by repeat constructor].
  unfold mbind, M_bind, emit, mret, M_ret. cbn -[upload_loop].
  assert (∀ paths uploaded,
            Forall (λ e, is_local e = false)
              (trace (upload_loop folder_id
                        (existing_names_of (list_folder w folder_id)) limit
                        paths uploaded))) as Hl.
  { induction paths as [|path paths IH]; intros uploaded; [by constructor|].
    destruct (limit_reached limit uploaded) eqn:Hlim.
    { rewrite upload_loop_break by done. constructor. }
    destruct (decide (Py.basename path ∈
                      existing_names_of (list_folder w folder_id))).
    - rewrite upload_loop_skip by done. by constructor.
    - rewrite upload_loop_upload by done. cbn [trace fst].
      constructor; [done|]. apply Forall_app. split; [|done].
      unfold milestone. destruct (_ =? 0); by repeat constructor. }
  specialize (Hl image_paths 0).
  destruct (upload_loop _ _ _ _ _) as [t o]. cbn [trace fst] in *.
  by constructor.
Qed.

(** ** The runs of the program *)

Lemma extract_images_result w pdf_path output_dir min_size limit :
  result (extract_images w pdf_path output_dir min_size limit) =
  if fitz_installed w then
    match makedirs_raises w output_dir, fitz_open w pdf_path with
    | Some exn, _ => Raise exn
    | None, Some doc =>
        Return (saved_paths
                  (trace (extract_images w pdf_path output_dir min_size limit)))
    | None, None => Raise "fitz.FileDataError"
    end
  else Exit 1.
Proof.
  destruct (fitz_installed w) eqn:H1.
  - destruct (makedirs_raises w output_dir) as [exn|] eqn:Hd.
    { by rewrite (extract_images_no_dir _ _ _ _ _ exn). }
    destruct (fitz_open w pdf_path) as [doc|] eqn:H2.
    + destruct (extract_images_spec w pdf_path output_dir min_size limit doc)
        as (t & -> & _); [done..|]. cbn [trace result fst snd]. f_equal.
      change (Makedirs ?d :: FitzOpen ?p :: ?t) with ([Makedirs d; FitzOpen p] ++ t).
      rewrite !saved_paths_app. cbn. by rewrite app_nil_r.
    + by rewrite extract_images_unreadable.
  - by rewrite extract_images_no_fitz.
Qed.

Lemma upload_to_drive_result w image_paths folder_id limit :
  result (upload_to_drive w image_paths folder_id limit) =
  if gwsa_installed w
  then Return (Py.len (uploads (trace (upload_to_drive w image_paths folder_id
                                         limit))))
  else Exit 1.
Proof.
  destruct (gwsa_installed w) eqn:H.
  - by destruct (upload_to_drive_spec w image_paths folder_id limit H)
      as (t & -> & _).
  - by rewrite upload_to_drive_no_gwsa.
Qed.

(** X10. The exit status of a run whose command line parses.  In
    upload-only mode it is 0 exactly when a non-empty folder identifier is
    given, the output directory exists and gwsa is installed; in the default
    mode exactly when the PDF exists, PyMuPDF is installed, the output
    directory is there or can be created, PyMuPDF opens the PDF, and either
    no folder identifier is given or gwsa is installed.  Otherwise it is 1;
    how many images are extracted or uploaded plays no part. *)
Theorem main_exit_status w argv args :
  parse_args argv = ([], Return args) →
  exit_status (main w argv) =
  if args_upload_only args then
    if Py.truthy_opt_str (args_drive_folder_id args)
       && path_exists w (args_output_dir args) && gwsa_installed w
    then 0 else 1
  else
    if path_exists w (args_pdf args) && fitz_installed w
       && bool_decide (makedirs_raises w (args_output_dir args) = None)
       && bool_decide (is_Some (fitz_open w (args_pdf args)))
       && (negb (Py.truthy_opt_str (args_drive_folder_id args))
           || gwsa_installed w)
    then 0 else 1.
Proof.
  intros Hparse. rewrite (main_parsed w argv args) by done.
  destruct (args_upload_only args) eqn:Hmode.
  - destruct (Py.truthy_opt_str (args_drive_folder_id args)) eqn:Hf.
    2: { by rewrite run_upload_only_no_folder. }
    destruct (path_exists w (args_output_dir args)) eqn:Hd.
    2: { by rewrite run_upload_only_no_dir. }
    apply truthy_folder in Hf as (f & Hf & Hne).
    rewrite (run_upload_only w args f) by done.
    unfold exit_status. cbn [result snd]. rewrite upload_to_drive_result.
    by destruct (gwsa_installed w).
  - destruct (path_exists w (args_pdf args)) eqn:Hp.
    2: { by rewrite run_default_no_pdf. }
    pose proof (extract_images_result w (args_pdf args) (args_output_dir args)
                  (args_min_size args) (args_limit args)) as Hres.
    destruct (extract_images w (args_pdf args) (args_output_dir args)
                (args_min_size args) (args_limit args)) as [t_ext o] eqn:Hext.
    cbn [trace result fst snd] in Hres.
    destruct (fitz_installed w) eqn:H1.
    2: { unfold run. rewrite Hmode, Hp, Hext. by subst o. }
    destruct (makedirs_raises w (args_output_dir args)) as [exn|] eqn:Hmk.
    { unfold run. rewrite Hmode, Hp, Hext. by subst o. }
    destruct (fitz_open w (args_pdf args)) as [doc|] eqn:H2.
    2: { unfold run. rewrite Hmode, Hp, Hext. subst o. cbn [andb].
         rewrite bool_decide_eq_true_2 by done.
         by rewrite bool_decide_eq_false_2 by by intros [? ?]. }
    subst o. rewrite (run_default w args t_ext (saved_paths t_ext)) by done.
    cbn [andb]. rewrite !bool_decide_eq_true_2 by (done || by eexists).
    destruct (args_drive_folder_id args) as [[|c f]|]; cbn; try done.
    unfold exit_status. cbn [result snd]. rewrite upload_to_drive_result.
    by destruct (gwsa_installed w).
Qed.

Lemma main_exit_status_witness :
  let w := {| fitz_installed := true; gwsa_installed := false;
              path_exists := λ _, true; makedirs_error := λ _, None;
              fitz_open := λ p, if String.eqb p "a.pdf" then Some Sample.report
                                else None;
              glob_png := λ _, []; list_folder := λ _, Sample.named [] |} in
  exit_status (main w [Positional "a.pdf"]) = 0 ∧
  exit_status (main w [Positional "a.pdf"; OptDriveFolderId (Some "F")]) = 1.
Proof.
  intros w. split.
  - by rewrite (main_exit_status w [Positional "a.pdf"]
       {| args_pdf := "a.pdf"; args_output_dir := "./extracted_images";
          args_min_size := 100; args_limit := 0;
          args_drive_folder_id := None; args_upload_only := false |} eq_refl).
  - by rewrite (main_exit_status w
       [Positional "a.pdf"; OptDriveFolderId (Some "F")]
       {| args_pdf := "a.pdf"; args_output_dir := "./extracted_images";
          args_min_size := 100; args_limit := 0;
          args_drive_folder_id := Some "F"; args_upload_only := false |} eq_refl).
Defined.

(** X11. In the default mode the upload dependency is looked for only
    after the extraction: with a folder identifier but without gwsa, on a
    readable PDF and with the output directory there or created, the run
    extracts and writes its files as usual, announces the upload,
    reports that gwsa is missing and ends with status 1, nothing having
    been listed or uploaded. *)
Theorem default_mode_without_gwsa w args folder_id doc :
  args_upload_only args = false →
  args_drive_folder_id args = Some folder_id → folder_id ≠ "" →
  path_exists w (args_pdf args) = true →
  fitz_installed w = true → makedirs_raises w (args_output_dir args) = None →
  fitz_open w (args_pdf args) = Some doc →
  gwsa_installed w = false →
  ∃ t_ext,
    extract_images w (args_pdf args) (args_output_dir args)
      (args_min_size args) (args_limit args) =
      (t_ext, Return (saved_paths t_ext)) ∧
    saved t_ext =
      file_of doc (args_output_dir args) <$>
        cap (args_limit args) (qualifying doc (args_min_size args)) ∧
    run w args =
      (t_ext ++
       [Stdout (MsgExtractedTotal (Py.len (saved_paths t_ext))
                  (args_output_dir args));
        Stdout (MsgUploading folder_id); Stderr MsgNoGwsa],
       Exit 1).
Proof.
  intros Hmode Hfolder Hne Hpdf Hfitz Hmk Hopen Hgwsa.
  pose proof (extract_images_result w (args_pdf args) (args_output_dir args)
                (args_min_size args) (args_limit args)) as Hres.
  pose proof (extract_images_saved w (args_pdf args) (args_output_dir args)
                (args_min_size args) (args_limit args)) as Hs.
  rewrite Hfitz, Hmk, Hopen in Hres, Hs.
  destruct (extract_images w (args_pdf args) (args_output_dir args)
              (args_min_size args) (args_limit args)) as [t_ext o] eqn:Hext.
  cbn [trace result fst snd] in Hres, Hs. subst o.
  exists t_ext. split; [done|]. split; [done|].
  rewrite (run_default w args t_ext (saved_paths t_ext)) by done.
  rewrite Hfolder. destruct folder_id as [|c f]; [done|]. cbv zeta.
  by rewrite upload_to_drive_no_gwsa.
Qed.

Lemma default_mode_without_gwsa_witness :
  let w := {| fitz_installed := true; gwsa_installed := false;
              path_exists := λ _, true; makedirs_error := λ _, None;
              fitz_open := λ p, if String.eqb p "a.pdf" then Some Sample.report
                                else None;
              glob_png := λ _, []; list_folder := λ _, Sample.named [] |} in
  let args := {| args_pdf := "a.pdf"; args_output_dir := "out";
                 args_min_size := 100; args_limit := 1;
                 args_drive_folder_id := Some "F"; args_upload_only := false |} in
  ∃ t_ext, saved_paths t_ext = ["out/page1_img1.png"] ∧
           run w args =
           (t_ext ++ [Stdout (MsgExtractedTotal 1 "out");
                      Stdout (MsgUploading "F"); Stderr MsgNoGwsa], Exit 1).
Proof.
  intros w args.
  destruct (default_mode_without_gwsa w args "F" Sample.report)
    as (t_ext & _ & Hs & Hrun); [reflexivity|reflexivity|discriminate|
                                 reflexivity..|].
  assert (saved_paths t_ext = ["out/page1_img1.png"]) as Hp.
  { unfold saved_paths. rewrite Hs. by vm_compute. }
  exists t_ext. split; [done|]. by rewrite Hrun, Hp.
Defined.

(** X12. Without a folder identifier the default mode never needs gwsa: the
    run lists no folder and uploads nothing, and on a readable PDF, the
    output directory being there or created, it ends with status 0 after
    the line that counts the extracted images, whether gwsa is installed or
    not. *)
Theorem default_mode_without_folder w args :
  args_upload_only args = false →
  Py.truthy_opt_str (args_drive_folder_id args) = false →
  Forall (λ e, is_remote e = false) (trace (run w args)) ∧
  (∀ doc, path_exists w (args_pdf args) = true →
          fitz_installed w = true →
          makedirs_raises w (args_output_dir args) = None →
          fitz_open w (args_pdf args) = Some doc →
          ∃ t_ext,
            extract_images w (args_pdf args) (args_output_dir args)
              (args_min_size args) (args_limit args) =
              (t_ext, Return (saved_paths t_ext)) ∧
            run w args =
              (t_ext ++ [Stdout (MsgExtractedTotal (Py.len (saved_paths t_ext))
                                   (args_output_dir args))],
               Return tt)).
Proof.
  intros Hmode Hfolder.
  pose proof (extract_images_result w (args_pdf args) (args_output_dir args)
                (args_min_size args) (args_limit args)) as Hres.
  pose proof (extract_images_local w (args_pdf args) (args_output_dir args)
                (args_min_size args) (args_limit args)) as Hloc.
  destruct (extract_images w (args_pdf args) (args_output_dir args)
              (args_min_size args) (args_limit args)) as [t_ext o] eqn:Hext.
  cbn [trace result fst snd] in Hres, Hloc.
  assert (∀ l, o = Return l →
               run w args =
               (t_ext ++ [Stdout (MsgExtractedTotal (Py.len l)
                                    (args_output_dir args))], Return tt) ∨
               path_exists w (args_pdf args) = false) as Hrun.
  { intros l ->. destruct (path_exists w (args_pdf args)) eqn:Hp; [left|by right].
    rewrite (run_default w args t_ext l Hmode Hp Hext).
    destruct (args_drive_folder_id args) as [[|c f]|]; cbn in Hfolder; done. }
  split.
  - destruct (path_exists w (args_pdf args)) eqn:Hp.
    2: { rewrite run_default_no_pdf by done. by repeat constructor. }
    destruct o as [l|c|e].
    + destruct (Hrun l eq_refl) as [->|?]; [|congruence]. cbn [trace fst].
      apply Forall_app. split; [done|]. by repeat constructor.
    + unfold run. by rewrite Hmode, Hp, Hext.
    + unfold run. by rewrite Hmode, Hp, Hext.
  - intros doc Hp H1 Hmk H2. rewrite H1, Hmk, H2 in Hres. subst o.
    exists t_ext. split; [done|].
    destruct (Hrun _ eq_refl) as [->|?]; [done|congruence].
Qed.

Lemma default_mode_without_folder_witness :
  let w := {| fitz_installed := true; gwsa_installed := false;
              path_exists := λ _, true; makedirs_error := λ _, None;
              fitz_open := λ p, if String.eqb p "a.pdf" then Some Sample.report
                                else None;
              glob_png := λ _, []; list_folder := λ _, Sample.named [] |} in
  let args := {| args_pdf := "a.pdf"; args_output_dir := "out";
                 args_min_size := 100; args_limit := 1;
                 args_drive_folder_id := None; args_upload_only := false |} in
  Forall (λ e, is_remote e = false) (trace (run w args)).
Proof.
  intros w args.
  by destruct (default_mode_without_folder w args eq_refl eq_refl) as [H _].
Defined.

(** X13. The upload-only mode never needs PyMuPDF and never touches the
    PDF or the output files: no directory is created, no document opened,
    no file written, whatever the world is.  With a folder identifier, an
    existing output directory and gwsa, it offers the [*.png] paths of the
    output directory in ascending order and uploads, under the cap
    [--limit], those whose basename is not in the folder. *)
Theorem upload_only_mode w args :
  args_upload_only args = true →
  Forall (λ e, is_local e = false) (trace (run w args)) ∧
  (∀ folder_id,
     args_drive_folder_id args = Some folder_id → folder_id ≠ "" →
     path_exists w (args_output_dir args) = true →
     gwsa_installed w = true →
     let image_paths := Py.sorted (glob_png w (args_output_dir args)) in
     let names := existing_names_of (list_folder w folder_id) in
     StronglySorted String.le image_paths ∧
     image_paths ≡ₚ glob_png w (args_output_dir args) ∧
     uploads (trace (run w args)) =
       cap (args_limit args) (filter (λ p, Py.basename p ∉ names) image_paths)).
Proof.
  intros Hmode. split.
  - destruct (Py.truthy_opt_str (args_drive_folder_id args)) eqn:Hf.
    2: { rewrite run_upload_only_no_folder by done. by repeat constructor. }
    destruct (path_exists w (args_output_dir args)) eqn:Hd.
    2: { rewrite run_upload_only_no_dir by done. by repeat constructor. }
    apply truthy_folder in Hf as (f & Hf & Hne).
    rewrite (run_upload_only w args f) by done. cbn [trace fst].
    do 2 (constructor; [done|]). apply Forall_app. split.
    + apply upload_to_drive_remote.
    + destruct (result _); by repeat constructor.
  - intros folder_id Hf Hne Hd Hgwsa image_paths names.
    split; [apply StronglySorted_merge_sort; apply _|].
    split; [apply merge_sort_Permutation|].
    rewrite (run_upload_only w args folder_id) by done. cbn [trace fst].
    fold image_paths.
    destruct (upload_to_drive_spec w image_paths folder_id (args_limit args) Hgwsa)
      as (t & Hrun & Hu & _).
    fold names in Hu. rewrite Hrun. cbn [trace result fst snd].
    change (uploads (Stdout ?a :: Stdout ?b :: ?r)) with (uploads r).
    rewrite uploads_app.
    change (uploads (ListFolder folder_id :: t)) with (uploads t).
    rewrite Hu. cbn. by rewrite app_nil_r.
Qed.

Lemma upload_only_mode_witness :
  let w := {| fitz_installed := false; gwsa_installed := true;
              path_exists := λ _, true; makedirs_error := λ _, None;
              fitz_open := λ _, None;
              glob_png := λ _, ["out/c.png"; "out/a.png"; "out/b.png"];
              list_folder := λ _, Sample.named ["a.png"] |} in
  let args := {| args_pdf := "a.pdf"; args_output_dir := "out";
                 args_min_size := 100; args_limit := 0;
                 args_drive_folder_id := Some "F"; args_upload_only := true |} in
  uploads (trace (run w args)) = ["out/b.png"; "out/c.png"].
Proof.
  intros w args.
  destruct (upload_only_mode w args eq_refl) as [_ H].
  destruct (H "F") as (_ & _ & ->); [reflexivity|discriminate|reflexivity..|].
  by vm_compute.
Defined.

(** ** File names and basenames *)

Lemma has_sep_app a b : Py.has_sep (a +:+ b) = Py.has_sep a || Py.has_sep b.
Proof.
  induction a as [|c a IH]; [done|]. rewrite append_cons. simpl.
  by destruct (Ascii.eqb c Py.sep).
Qed.

Lemma digits_no_sep s : all_digits s = true → Py.has_sep s = false.
Proof.
  induction s as [|c s IH]; [done|]. simpl.
  intros [Hc Hs]%andb_true_iff. rewrite IH by done.
  destruct (Ascii.eqb_spec c Py.sep) as [->|]; [|done]. discriminate Hc.
Qed.

Lemma image_name_no_sep p i : Py.has_sep (image_name p i) = false.
Proof.
  unfold image_name. rewrite !has_sep_app.
  rewrite (digits_no_sep (Py.str (Z.of_nat p + 1))),
    (digits_no_sep (Py.str (Z.of_nat i + 1))) by (apply str_digits; lia).
  reflexivity.
Qed.

Lemma basename_no_sep s : Py.has_sep s = false → Py.basename s = s.
Proof.
  destruct s as [|c s]; [done|]. simpl.
  destruct (Ascii.eqb c Py.sep); [done|]. by intros ->.
Qed.

Lemma basename_after_sep a s :
  Py.has_sep s = false → Py.basename (a +:+ String Py.sep s) = s.
Proof.
  intros Hs. induction a as [|c a IH].
  - rewrite append_empty_l. simpl. by rewrite Hs.
  - rewrite append_cons. simpl. rewrite has_sep_app. simpl.
    by rewrite orb_true_r.
Qed.

Lemma basename_after_dir a s :
  Py.endswith_sep a = true → Py.has_sep s = false →
  Py.basename (a +:+ s) = s.
Proof.
  intros Ha Hs. induction a as [|c a IH]; [done|].
  destruct a as [|c' a].
  - simpl in Ha. rewrite append_cons, append_empty_l. simpl.
    by rewrite Hs, Ha.
  - specialize (IH Ha). rewrite append_cons.
    change (Py.basename (String c ?r)) with
      (if Py.has_sep r then Py.basename r
       else if Ascii.eqb c Py.sep then r else String c r).
    assert (Py.has_sep (String c' a +:+ s) = true) as ->; [|done].
    rewrite has_sep_app. apply orb_true_iff. left.
    clear IH. revert c' Ha. induction a as [|c'' a IHa]; intros c' Ha.
    + simpl in *. by rewrite Ha.
    + simpl. destruct (Ascii.eqb c' Py.sep); [done|]. by apply IHa.
Qed.

Lemma image_path_basename output_dir page_num img_idx :
  Py.basename (image_path output_dir page_num img_idx) =
  image_name page_num img_idx.
Proof.
  unfold image_path, Py.join. rewrite image_name_relative.
  pose proof (image_name_no_sep page_num img_idx) as Hn.
  destruct output_dir as [|c d].
  - cbn [Py.truthy_str negb orb]. rewrite append_empty_l. by apply basename_no_sep.
  - cbn [Py.truthy_str negb orb].
    destruct (Py.endswith_sep (String c d)) eqn:He.
    + by apply basename_after_dir.
    + by apply basename_after_sep.
Qed.

(** X14. Whatever the output directory is (empty, relative, absolute, with
    or without a trailing separator), the path [extract_images] gives to an
    image lies directly in it under the file name [page{N}_img{M}.png]: the
    basename of the path, which is what the upload compares with the folder
    listing, is that name. *)
Theorem basename_image_path output_dir page_num img_idx :
  Py.basename (Py.join output_dir (image_name page_num img_idx)) =
  image_name page_num img_idx ∧
  Py.has_sep (image_name page_num img_idx) = false.
Proof.
  split; [apply image_path_basename|apply image_name_no_sep].
Qed.

Lemma filter_fmap_iff {A B} (f : A → B) (P : B → Prop) (Q : A → Prop)
    `{!∀ x, Decision (P x)} `{!∀ x, Decision (Q x)} (l : list A) :
  (∀ x, P (f x) ↔ Q x) → filter P (f <$> l) = f <$> filter Q l.
Proof.
  intros HPQ. induction l as [|x l IH]; [done|].
  rewrite fmap_cons, !filter_cons, IH.
  destruct (decide (P (f x))) as [HP|HP], (decide (Q x)) as [HQ|HQ];
    try done; by apply HPQ in HP || apply HPQ in HQ.
Qed.

(** X15. In the default mode with a folder identifier, on a readable PDF
    and with the output directory there or created, what a run uploads are
    the images it extracted whose file name [page{N}_img{M}.png] is not yet
    in the folder, in the order of extraction; the output directory plays
    no part in the comparison. *)
Theorem default_mode_uploads w args folder_id doc :
  args_upload_only args = false →
  args_drive_folder_id args = Some folder_id → folder_id ≠ "" →
  path_exists w (args_pdf args) = true →
  fitz_installed w = true → makedirs_raises w (args_output_dir args) = None →
  fitz_open w (args_pdf args) = Some doc →
  gwsa_installed w = true →
  let names := existing_names_of (list_folder w folder_id) in
  let selected := cap (args_limit args) (qualifying doc (args_min_size args)) in
  uploads (trace (run w args)) =
  (λ q, image_path (args_output_dir args) q.1 q.2.1) <$>
    filter (λ q, image_name q.1 q.2.1 ∉ names) selected.
Proof.
  intros Hmode Hfolder Hne Hpdf Hfitz Hmk Hopen Hgwsa names selected.
  pose proof (extract_images_result w (args_pdf args) (args_output_dir args)
                (args_min_size args) (args_limit args)) as Hres.
  pose proof (extract_images_saved w (args_pdf args) (args_output_dir args)
                (args_min_size args) (args_limit args)) as Hs.
  pose proof (extract_images_local w (args_pdf args) (args_output_dir args)
                (args_min_size args) (args_limit args)) as Hloc.
  rewrite Hfitz, Hmk, Hopen in Hres, Hs.
  destruct (extract_images w (args_pdf args) (args_output_dir args)
              (args_min_size args) (args_limit args)) as [t_ext o] eqn:Hext.
  cbn [trace result fst snd] in Hres, Hs, Hloc. subst o.
  apply no_remote_uploads in Hloc as [Hnone _].
  rewrite (run_default w args t_ext (saved_paths t_ext)) by done.
  rewrite Hfolder. destruct folder_id as [|c f]; [done|]. cbv zeta.
  destruct (upload_to_drive_spec w (saved_paths t_ext) (String c f) 0 Hgwsa)
    as (t & Hrun & Hu & _).
  fold names in Hu. rewrite Hrun. cbn [trace result fst snd].
  rewrite uploads_app, Hnone.
  change (uploads (Stdout ?a :: Stdout ?b :: ?r)) with (uploads r).
  rewrite uploads_app.
  change (uploads (ListFolder (String c f) :: t)) with (uploads t).
  rewrite Hu. cbn. rewrite app_nil_r.
  unfold saved_paths. rewrite Hs. fold selected.
  rewrite <- list_fmap_compose.
  apply filter_fmap_iff. intros q. cbn. by rewrite image_path_basename.
Qed.

Lemma default_mode_uploads_witness :
  let w := Sample.world Sample.report [] ["page1_img2.png"] in
  let args := {| args_pdf := "a.pdf"; args_output_dir := "out";
                 args_min_size := 100; args_limit := 3;
                 args_drive_folder_id := Some "F"; args_upload_only := false |} in
  uploads (trace (run w args)) = ["out/page1_img1.png"; "out/page3_img1.png"].
Proof.
  intros w args.
  rewrite (default_mode_uploads w args "F" Sample.report);
    [|reflexivity|reflexivity|discriminate|reflexivity..].
  by vm_compute.
Defined.

(** ** Raising the minimum size *)

Lemma qualifies_mono m m' pix :
  m ≤ m' → qualifies m' pix = true → qualifies m pix = true.
Proof. rewrite !qualifies_true. lia. Qed.

Lemma qualifying_from_mono doc m m' images : ∀ img_idx,
  m ≤ m' →
  qualifying_from doc m' img_idx images `sublist_of`
  qualifying_from doc m img_idx images.
Proof.
  induction images as [|img images IH]; intros img_idx Hm; simpl; [done|].
  destruct (qualifies m' (doc_pixmap doc (img_xref img))) eqn:Hq'.
  - rewrite (qualifies_mono m m' _ Hm Hq'). apply sublist_skip. by apply IH.
  - destruct (qualifies m _); [apply sublist_cons|]; by apply IH.
Qed.

Lemma qualifying_pages_mono doc m m' pages : ∀ k,
  m ≤ m' →
  qualifying_pages doc m' k pages `sublist_of` qualifying_pages doc m k pages.
Proof.
  induction pages as [|images pages IH]; intros k Hm; simpl; [done|].
  apply sublist_app; [|by apply IH].
  by apply fmap_sublist, qualifying_from_mono.
Qed.

(** X16. Without a limit, raising the minimum size only removes files:
    what [extract_images] writes under a larger minimum is, in the same
    order, part of what it writes under a smaller one. *)
Theorem extract_images_min_size_mono w pdf_path output_dir m m' :
  m ≤ m' →
  saved (trace (extract_images w pdf_path output_dir m' 0)) `sublist_of`
  saved (trace (extract_images w pdf_path output_dir m 0)).
Proof.
  intros Hm. rewrite !extract_images_saved.
  destruct (fitz_installed w); [|done].
  destruct (makedirs_raises w output_dir); [done|].
  destruct (fitz_open w pdf_path) as [doc|]; [|done].
  by apply fmap_sublist, qualifying_pages_mono.
Qed.

Lemma extract_images_min_size_mono_witness :
  saved (trace (extract_images (Sample.world Sample.mixed [] []) "a.pdf" "out"
                  500 0)) `sublist_of`
  saved (trace (extract_images (Sample.world Sample.mixed [] []) "a.pdf" "out"
                  100 0)).
Proof.
  apply (extract_images_min_size_mono (Sample.world Sample.mixed [] []) "a.pdf"
           "out" 100 500). lia.
Defined.
